(** * utils/converter: LaTeX segmentation and Word export

    A shallow embedding of [parseContent] and [generateWordCompatibleFile]
    (utils/converter) together with the [TextSegment] and [ExportStyle]
    types of types.ts.

    JavaScript strings are sequences of UTF-16 code units; none of the
    regular expressions of the module carries the [u] flag, so every
    pattern works on code units.  A string is therefore a [list N]. *)

From Stdlib Require Import List NArith ZArith Arith Bool Ascii String Lia.
Import ListNotations.
Open Scope N_scope.
Open Scope list_scope.

Abbreviation length := Datatypes.length.

(** ** Strings *)

Definition char := N.
Definition jsstring := list char.

(** Literals are written as UTF-8 text and decoded to UTF-16 code units. *)
Fixpoint utf8_decode (bs : list N) : jsstring :=
  match bs with
  | [] => []
  | b0 :: r0 =>
    if b0 <? 128 then b0 :: utf8_decode r0
    else match r0 with
    | [] => [b0]
    | b1 :: r1 =>
      if b0 <? 224 then ((b0 - 192) * 64 + (b1 - 128)) :: utf8_decode r1
      else match r1 with
      | [] => [b0; b1]
      | b2 :: r2 =>
        if b0 <? 240
        then ((b0 - 224) * 4096 + (b1 - 128) * 64 + (b2 - 128)) :: utf8_decode r2
        else match r2 with
        | [] => [b0; b1; b2]
        | b3 :: r3 =>
          let cp := (b0 - 240) * 262144 + (b1 - 128) * 4096
                    + (b2 - 128) * 64 + (b3 - 128) in
          (55296 + (cp - 65536) / 1024) :: (56320 + (cp - 65536) mod 1024)
            :: utf8_decode r3
        end
      end
    end
  end.

Definition js (s : string) : jsstring :=
  utf8_decode (map N_of_ascii (list_ascii_of_string s)).

(** The double quote, the backslash and the line feed. *)
Definition dq : jsstring := [34].
Definition ch_dollar : char := 36.
Definition ch_backslash : char := 92.
Definition ch_lf : char := 10.

Fixpoint str_eqb (a b : jsstring) : bool :=
  match a, b with
  | [], [] => true
  | x :: a', y :: b' => (x =? y) && str_eqb a' b'
  | _, _ => false
  end.

(** [String.prototype.startsWith] *)
Fixpoint startsWith (s p : jsstring) {struct p} : bool :=
  match p with
  | [] => true
  | x :: p' =>
    match s with
    | [] => false
    | y :: s' => (y =? x) && startsWith s' p'
    end
  end.

(** [String.prototype.includes] *)
Fixpoint includes (s p : jsstring) : bool :=
  startsWith s p ||
  match s with
  | [] => false
  | _ :: s' => includes s' p
  end.

(** [String.prototype.slice] with both arguments: a negative argument
    counts from the end, and an inverted range is empty. *)
Definition slice_index (len : nat) (i : Z) : nat :=
  if (i <? 0)%Z then Z.to_nat (Z.max (Z.of_nat len + i) 0)
  else Nat.min (Z.to_nat i) len.

Definition slice (s : jsstring) (from to : Z) : jsstring :=
  let len := length s in
  let a := slice_index len from in
  let b := slice_index len to in
  firstn (b - a) (skipn a s).

(** [s.slice(from)] *)
Definition slice_from (s : jsstring) (from : Z) : jsstring :=
  skipn (slice_index (length s) from) s.

(** White space and line terminators, as [\s] and [trim] see them. *)
Definition is_space (c : char) : bool :=
  ((9 <=? c) && (c <=? 13)) || (c =? 32) || (c =? 160) || (c =? 5760)
  || ((8192 <=? c) && (c <=? 8202)) || (c =? 8232) || (c =? 8233)
  || (c =? 8239) || (c =? 8287) || (c =? 12288) || (c =? 65279).

Fixpoint trimStart (s : jsstring) : jsstring :=
  match s with
  | c :: s' => if is_space c then trimStart s' else s
  | [] => []
  end.

Definition trim (s : jsstring) : jsstring :=
  rev (trimStart (rev (trimStart s))).

(** ** Regular expressions

    The patterns of the module are written as terms and run by a
    backtracking matcher, in the order in which a JavaScript engine tries
    the choices. *)
Inductive regex :=
  | Eps                              (* the empty pattern *)
  | Chr (p : char -> bool)           (* a character, a class or an escape *)
  | Seq (a b : regex)                (* ab *)
  | Alt (a b : regex)                (* a|b *)
  | Star (greedy : bool) (a : regex) (* a* and a*? *)
  | Opt (a : regex)                  (* a? *)
  | Bol                              (* ^ without the m flag *)
  | NotBehind (p : char -> bool)     (* (?<!c) *)
  | Group (a : regex).               (* (a) *)

(** A literal string, and [a+]. *)
Definition lit_with (eq : char -> char -> bool) (s : jsstring) : regex :=
  fold_right (fun c r => Seq (Chr (eq c)) r) Eps s.
Definition lit : jsstring -> regex := lit_with N.eqb.
Definition Plus (greedy : bool) (a : regex) : regex := Seq a (Star greedy a).

(** A continuation receives the captures so far, the character before
    the position and the rest of the subject. *)
Definition cont (A : Type) : Type :=
  list jsstring -> option char -> jsstring -> option A.

(** The turns of a star.  A greedy star tries one more turn before it
    goes on, a lazy one goes on first.  [n] bounds the number of turns. *)
Fixpoint turns {A} (body : list jsstring -> option char -> jsstring ->
                           cont A -> option A)
  (greedy : bool) (k : cont A) (n : nat)
  (caps : list jsstring) (prev : option char) (s : jsstring) : option A :=
  let more (_ : unit) :=
    match n with
    | O => None
    | S n' =>
      body caps prev s (fun caps' prev' s' => turns body greedy k n' caps' prev' s')
    end in
  if greedy then
    match more tt with
    | Some x => Some x
    | None => k caps prev s
    end
  else
    match k caps prev s with
    | Some x => Some x
    | None => more tt
    end.

(** The matcher.  The starred patterns of the module are character
    classes, one character a turn, so a star never takes more turns than
    the subject has characters. *)
Fixpoint run {A} (r : regex) (caps : list jsstring) (prev : option char)
  (s : jsstring) (k : cont A) {struct r} : option A :=
  match r with
  | Eps => k caps prev s
  | Chr p =>
    match s with
    | c :: s' => if p c then k caps (Some c) s' else None
    | [] => None
    end
  | Seq a b => run a caps prev s (fun caps' prev' s' => run b caps' prev' s' k)
  | Alt a b =>
    match run a caps prev s k with
    | Some x => Some x
    | None => run b caps prev s k
    end
  | Star greedy a => turns (run a) greedy k (length s) caps prev s
  | Opt a =>
    match run a caps prev s k with
    | Some x => Some x
    | None => k caps prev s
    end
  | Bol =>
    match prev with
    | None => k caps prev s
    | Some _ => None
    end
  | NotBehind p =>
    match prev with
    | Some c => if p c then None else k caps prev s
    | None => k caps prev s
    end
  | Group a =>
    run a caps prev s (fun caps' prev' s' =>
      k (caps' ++ [firstn (length s - length s') s]) prev' s')
  end.

(** A match at the start of [s]: its length and its captures. *)
Definition matches (r : regex) (prev : option char) (s : jsstring)
  : option (nat * list jsstring) :=
  run r [] prev s (fun caps _ s' => Some ((length s - length s')%nat, caps)).

Definition match_length (r : regex) (prev : option char) (s : jsstring)
  : option nat :=
  option_map fst (matches r prev s).

Definition any_char (_ : char) : bool := true.
Definition not_dollar (c : char) : bool := negb (c =? ch_dollar).

(** A matcher sees the character before the position ([None] at index 0)
    and the rest of the subject.  [search m prev s i] is the leftmost
    position at or after [i] where [m] matches, with the match length. *)
Fixpoint search (m : option char -> jsstring -> option nat)
  (prev : option char) (s : jsstring) (i : nat) : option (nat * nat) :=
  match m prev s with
  | Some n => Some (i, n)
  | None =>
    match s with
    | [] => None
    | c :: s' => search m (Some c) s' (S i)
    end
  end.

Definition char_before (text : jsstring) (i : nat) : option char :=
  match i with
  | O => None
  | S j => nth_error text j
  end.

(** ** types.ts *)

Inductive SegmentType := text_seg | math_seg.

(** [displayMode] is an optional field: text segments leave it undefined. *)
Record TextSegment := mkSegment {
  type : SegmentType;
  content : jsstring;
  displayMode : option bool
}.

Inductive ExportStyle :=
  | standard | minimal | worksheet | notes | two_column
  | landscape | large_print | draft | flashcards.

(** ** parseContent *)

(** [/(\$\$[\s\S]*?\$\$|\\\[[\s\S]*?\\\]|\\\([\s\S]*?\\\)|(?<!\\)\$[^$]*?\$)/g],
    one alternative after the other. *)
Definition dollars_pattern : regex :=
  Seq (lit (js "$$")) (Seq (Star false (Chr any_char)) (lit (js "$$"))).

Definition bracket_pattern : regex :=
  Seq (lit (js "\[")) (Seq (Star false (Chr any_char)) (lit (js "\]"))).

Definition paren_pattern : regex :=
  Seq (lit (js "\(")) (Seq (Star false (Chr any_char)) (lit (js "\)"))).

Definition dollar_pattern : regex :=
  Seq (NotBehind (fun c => c =? ch_backslash))
    (Seq (lit (js "$")) (Seq (Star false (Chr not_dollar)) (lit (js "$")))).

Definition latex_pattern : regex :=
  Group (Alt dollars_pattern
          (Alt bracket_pattern (Alt paren_pattern dollar_pattern))).

Definition latex_regex (prev : option char) (s : jsstring) : option nat :=
  match_length latex_pattern prev s.

(** [regex.exec(text)] with [regex.lastIndex = lastIndex]: the pair of
    [match.index] and the new [regex.lastIndex], or [None] for [null]. *)
Definition regex_exec (text : jsstring) (lastIndex : nat)
  : option (nat * nat) :=
  match search latex_regex (char_before text lastIndex)
               (skipn lastIndex text) lastIndex with
  | Some (index, n) => Some (index, (index + n)%nat)
  | None => None
  end.

(** "Strip delimiters and determine mode" *)
Definition strip_delimiters (fullMatch : jsstring) : jsstring * bool :=
  if startsWith fullMatch (js "$$") then (slice fullMatch 2 (-2), true)
  else if startsWith fullMatch (js "\[") then (slice fullMatch 2 (-2), true)
  else if startsWith fullMatch (js "\(") then (slice fullMatch 2 (-2), false)
  else if startsWith fullMatch (js "$") then (slice fullMatch 1 (-1), false)
  else (fullMatch, false).

(** The [while] loop; the state is [lastIndex] and [segments].  [None]
    means that the fuel ran out before [exec] returned [null]. *)
Fixpoint parse_loop (fuel : nat) (text : jsstring) (lastIndex : nat)
  (segments : list TextSegment) : option (list TextSegment) :=
  match fuel with
  | O => None
  | S fuel' =>
    match regex_exec text lastIndex with
    | Some (index, lastIndex') =>
      let segments1 :=
        if (lastIndex <? index)%nat
        then segments ++ [mkSegment text_seg
               (slice text (Z.of_nat lastIndex) (Z.of_nat index)) None]
        else segments in
      let fullMatch := slice text (Z.of_nat index) (Z.of_nat lastIndex') in
      let '(content, displayMode) := strip_delimiters fullMatch in
      parse_loop fuel' text lastIndex'
        (segments1 ++ [mkSegment math_seg content (Some displayMode)])
    | None =>
      Some (if (lastIndex <? length text)%nat
            then segments ++ [mkSegment text_seg
                   (slice_from text (Z.of_nat lastIndex)) None]
            else segments)
    end
  end.

(** Every match is at least two characters long, so the loop body runs
    at most once per two characters, and once more for the final [null]. *)
Definition parseContent (text : jsstring) : option (list TextSegment) :=
  parse_loop (S (length text)) text 0 [].



(** ** generateWordCompatibleFile *)

(** [String.prototype.replace] with a one-character global pattern. *)
Definition replace_char (c : char) (by_ : jsstring) (s : jsstring) : jsstring :=
  flat_map (fun x => if x =? c then by_ else [x]) s.

(** [String.prototype.replace] with a global pattern.  The matcher gives
    the length of its match and the expanded replacement.  After a match
    the scan goes on behind it ([skip] counts the characters of the match
    that are still to be passed); after an empty match it moves one
    character on. *)
Fixpoint replace_all (m : option char -> jsstring -> option (nat * jsstring))
  (skip : nat) (prev : option char) (s : jsstring) : jsstring :=
  match skip with
  | S k =>
    match s with
    | [] => []
    | c :: s' => replace_all m k (Some c) s'
    end
  | O =>
    match m prev s with
    | Some (n, r) =>
      r ++ match s with
           | [] => []
           | c :: s' =>
             match n with
             | O => c :: replace_all m 0 (Some c) s'
             | S k => replace_all m k (Some c) s'
             end
           end
    | None =>
      match s with
      | [] => []
      | c :: s' => c :: replace_all m 0 (Some c) s'
      end
    end
  end.

(** [String.prototype.replace] with a pattern without the [g] flag and the
    empty string as replacement: the leftmost match is cut out. *)
Definition remove_first (m : option char -> jsstring -> option nat)
  (s : jsstring) : jsstring :=
  match search m None s 0 with
  | Some (i, n) => firstn i s ++ skipn (i + n) s
  | None => s
  end.

(** [String.prototype.match] with a pattern without the [g] flag: the
    text of the leftmost match. *)
Definition match_first (m : option char -> jsstring -> option nat)
  (s : jsstring) : option jsstring :=
  match search m None s 0 with
  | Some (i, n) => Some (firstn n (skipn i s))
  | None => None
  end.

(** Case folding of the [i] flag (Canonicalize without the [u] flag) on
    Basic Latin and Latin-1: the upper-case letter of a lower-case one.
    The characters of the patterns below are the folded form of no
    character outside these two blocks. *)
Definition canonicalize (c : char) : char :=
  if (97 <=? c) && (c <=? 122) then c - 32
  else if (224 <=? c) && (c <=? 254) && negb (c =? 247) then c - 32
  else c.

Definition eq_ci (p c : char) : bool := canonicalize p =? canonicalize c.

Definition is_digit (c : char) : bool := (48 <=? c) && (c <=? 57).

(** [[\dIVX]] under the [i] flag *)
Definition is_number_char (c : char) : bool :=
  is_digit c || eq_ci 73 c || eq_ci 86 c || eq_ci 88 c.

(** [[.:]] *)
Definition is_dot_or_colon (c : char) : bool := (c =? 46) || (c =? 58).

(** [[a-z]] *)
Definition is_lower (c : char) : bool := (97 <=? c) && (c <=? 122).

(** The numbered capture [$i] of a replacement string. *)
Definition capture (caps : list jsstring) (i : nat) : jsstring :=
  nth (i - 1) caps [].

(** [/(^|\n)(Câu|Bài)\s+([\dIVX]+[.:]?)/gi] *)
Definition section_pattern : regex :=
  Seq (Group (Alt Bol (Chr (eq_ci ch_lf))))
    (Seq (Group (Alt (lit_with eq_ci (js "Câu")) (lit_with eq_ci (js "Bài"))))
      (Seq (Plus true (Chr is_space))
        (Group (Seq (Plus true (Chr is_number_char))
                    (Opt (Chr is_dot_or_colon)))))).

(** Replaced by
    [$1<span style="color: #0284c7; font-weight: bold;">$2 $3</span>]. *)
Definition section_marker (prev : option char) (s : jsstring)
  : option (nat * jsstring) :=
  match matches section_pattern prev s with
  | Some (n, caps) =>
    Some (n, capture caps 1 ++ js "<span style=" ++ dq
               ++ js "color: #0284c7; font-weight: bold;" ++ dq ++ js ">"
               ++ capture caps 2 ++ js " " ++ capture caps 3 ++ js "</span>")
  | None => None
  end.

(** [/(^|\n)([a-z]\))(\s)/g] *)
Definition sub_item_pattern : regex :=
  Seq (Group (Alt Bol (Chr (N.eqb ch_lf))))
    (Seq (Group (Seq (Chr is_lower) (Chr (N.eqb 41))))
      (Group (Chr is_space))).

(** Replaced by
    [$1<span style="color: #0369a1; font-weight: bold;">$2</span>$3]. *)
Definition sub_item_marker (prev : option char) (s : jsstring)
  : option (nat * jsstring) :=
  match matches sub_item_pattern prev s with
  | Some (n, caps) =>
    Some (n, capture caps 1 ++ js "<span style=" ++ dq
               ++ js "color: #0369a1; font-weight: bold;" ++ dq ++ js ">"
               ++ capture caps 2 ++ js "</span>" ++ capture caps 3)
  | None => None
  end.

(** [/<math[\s\S]*?<\/math>/] *)
Definition math_element_pattern : regex :=
  Seq (lit (js "<math")) (Seq (Star false (Chr any_char)) (lit (js "</math>"))).

Definition math_element : option char -> jsstring -> option nat :=
  match_length math_element_pattern.

(** [/<annotation encoding="application\/x-tex">[\s\S]*?<\/annotation>/] *)
Definition tex_annotation_pattern : regex :=
  Seq (lit (js "<annotation encoding=" ++ dq ++ js "application/x-tex" ++ dq
              ++ js ">"))
    (Seq (Star false (Chr any_char)) (lit (js "</annotation>"))).

Definition tex_annotation : option char -> jsstring -> option nat :=
  match_length tex_annotation_pattern.

(** A call either returns or throws. *)
Inductive completion (A : Type) :=
  | Return (a : A)
  | Throw.
Arguments Return {A} a.
Arguments Throw {A}.

Definition try_catch {A} (block : completion A) (handler : A) : A :=
  match block with
  | Return a => a
  | Throw => handler
  end.

Definition bind {A B} (c : completion A) (k : A -> completion B)
  : completion B :=
  match c with
  | Return a => k a
  | Throw => Throw
  end.

(** An optional boolean in a condition: [undefined] is falsy. *)
Definition truthy (b : option bool) : bool :=
  match b with Some true => true | _ => false end.

Definition style_eqb (a b : ExportStyle) : bool :=
  match a, b with
  | standard, standard | minimal, minimal | worksheet, worksheet
  | notes, notes | two_column, two_column | landscape, landscape
  | large_print, large_print | draft, draft | flashcards, flashcards => true
  | _, _ => false
  end.

(** "Helper: Dotted lines for Worksheet" *)
Definition writingLines : jsstring :=
  js "
    <div style=" ++ dq ++ js "margin-top: 10pt; margin-bottom: 20pt; color: #999;" ++ dq ++ js ">
        <p style=" ++ dq ++ js "border-bottom: 1px dotted #999; line-height: 24pt;" ++ dq ++ js ">&nbsp;</p>
        <p style=" ++ dq ++ js "border-bottom: 1px dotted #999; line-height: 24pt;" ++ dq ++ js ">&nbsp;</p>
        <p style=" ++ dq ++ js "border-bottom: 1px dotted #999; line-height: 24pt;" ++ dq ++ js ">&nbsp;</p>
    </div>
  ".

Definition flashcard (segmentHtml : jsstring) : jsstring :=
  js "<div class=" ++ dq ++ js "flashcard" ++ dq ++ js ">" ++ segmentHtml
    ++ js "</div>".

(** The local variables of the "Dynamic CSS based on Style" part. *)
Record Layout := mkLayout {
  pageMargin : jsstring;
  orientation : jsstring;
  fontSize : jsstring;
  fontFamily : jsstring;
  lineHeight : jsstring;
  extraCss : jsstring
}.

Definition initial_layout : Layout :=
  {| pageMargin := js "1in";
     orientation := js "portrait";
     fontSize := js "12pt";
     fontFamily := js "'Times New Roman', serif";
     lineHeight := js "1.5";
     extraCss := [] |}.

Definition set_pageMargin (v : jsstring) (l : Layout) : Layout :=
  mkLayout v (orientation l) (fontSize l) (fontFamily l) (lineHeight l)
    (extraCss l).
Definition set_orientation (v : jsstring) (l : Layout) : Layout :=
  mkLayout (pageMargin l) v (fontSize l) (fontFamily l) (lineHeight l)
    (extraCss l).
Definition set_fontSize (v : jsstring) (l : Layout) : Layout :=
  mkLayout (pageMargin l) (orientation l) v (fontFamily l) (lineHeight l)
    (extraCss l).
Definition set_fontFamily (v : jsstring) (l : Layout) : Layout :=
  mkLayout (pageMargin l) (orientation l) (fontSize l) v (lineHeight l)
    (extraCss l).
Definition set_lineHeight (v : jsstring) (l : Layout) : Layout :=
  mkLayout (pageMargin l) (orientation l) (fontSize l) (fontFamily l) v
    (extraCss l).
Definition set_extraCss (v : jsstring) (l : Layout) : Layout :=
  mkLayout (pageMargin l) (orientation l) (fontSize l) (fontFamily l)
    (lineHeight l) v.

(** The [switch (style)]; [standard] and [worksheet] have no case. *)
Definition style_layout (style : ExportStyle) : Layout :=
  match style with
  | notes => set_pageMargin (js "1in 1in 1in 2.5in") initial_layout
  | minimal =>
    set_lineHeight (js "1.2") (set_pageMargin (js "0.5in") initial_layout)
  | two_column =>
    set_extraCss (js "
            .Section1 { 
                column-count: 2; 
                column-gap: 36pt; 
            }
          ")
      (set_pageMargin (js "0.5in") initial_layout)
  | landscape => set_orientation (js "landscape") initial_layout
  | large_print =>
    set_lineHeight (js "1.6")
      (set_fontFamily (js "Arial, sans-serif")
        (set_fontSize (js "16pt") initial_layout))
  | draft =>
    set_pageMargin (js "1.5in") (set_lineHeight (js "2.0") initial_layout)
  | flashcards =>
    set_extraCss (js "
            .flashcard {
                border: 2px solid #000;
                padding: 15pt;
                margin: 15pt 0;
                page-break-inside: avoid;
                background-color: #ffffff;
            }
          ")
      initial_layout
  | standard | worksheet => initial_layout
  end.

(** "Colors" *)
Definition isPlain (style : ExportStyle) : bool :=
  style_eqb style minimal || style_eqb style draft.
Definition headingColor1 (style : ExportStyle) : jsstring :=
  if isPlain style then js "#000000" else js "#2E74B5".
Definition headingColor2 (style : ExportStyle) : jsstring :=
  if isPlain style then js "#000000" else js "#1F4D78".
Definition tableHeaderBg (style : ExportStyle) : jsstring :=
  if isPlain style then js "#ffffff" else js "#f2f2f2".

(** [fullHtml] up to [${bodyContent}] *)
Definition html_head (l : Layout) (style : ExportStyle) : jsstring :=
  js "
    <!DOCTYPE html>
    <html lang=" ++ dq ++ js "en" ++ dq ++ js ">
    <head>
        <meta charset=" ++ dq ++ js "UTF-8" ++ dq ++ js ">
        <title>Export</title>
        <style>
            @page {
                margin: " ++ pageMargin l ++ js ";
                size: " ++ orientation l ++ js ";
            }
            
            body { 
                font-family: " ++ fontFamily l ++ js "; 
                font-size: " ++ fontSize l ++ js "; 
                line-height: " ++ lineHeight l ++ js "; 
                color: #000000;
            }
            
            /* Heading Styles */
            h1 { font-size: 1.4em; color: " ++ headingColor1 style ++ js "; font-weight: bold; margin-top: 18pt; margin-bottom: 6pt; }
            h2 { font-size: 1.2em; color: " ++ headingColor1 style ++ js "; font-weight: bold; margin-top: 12pt; margin-bottom: 6pt; }
            h3 { font-size: 1.1em; color: " ++ headingColor2 style ++ js "; font-weight: bold; margin-top: 12pt; margin-bottom: 6pt; }
            
            /* Text Runs */
            .text-run { white-space: pre-wrap; }
            
            /* Equations */
            p.equation { margin: 12pt 0; text-align: center; }
            
            /* Tables */
            table { 
                border-collapse: collapse; 
                width: 100%; 
                margin: 12pt 0; 
                border: 1px solid black;
            }
            td, th { 
                border: 1px solid black; 
                padding: 6px 8px; 
                vertical-align: top;
            }
            th {
                background-color: " ++ tableHeaderBg style ++ js ";
                font-weight: bold;
            }

            /* Custom Style CSS */
            " ++ extraCss l ++ js "
        </style>
    </head>
    <body>
        <div class=" ++ dq ++ js "Section1" ++ dq ++ js ">
            ".

(** [fullHtml] from [${bodyContent}] on *)
Definition html_foot : jsstring :=
  js "
            
            <br/>
            <hr/>
            <p style=" ++ dq ++ js "text-align: center; color: #2E74B5; font-size: 10pt; font-weight: bold; margin-top: 20pt;" ++ dq ++ js ">
                Thầy Vũ Tiến Lực - Trường THPT Nguyễn Hữu Cảnh
            </p>
        </div>
    </body>
    </html>
  ".

(** The options handed to [asBlob]. *)
Record Margins := mkMargins { top : N; bottom : N; left : N; right : N }.
Record BlobOptions := mkBlobOptions {
  blob_orientation : jsstring;
  blob_margins : Margins
}.

Section WordExport.

(** [katex.renderToString(content, { throwOnError: false, output: 'mathml',
    displayMode })] and [asBlob] of html-docx-js-typescript are the two
    collaborators. *)
Variable renderToString : jsstring -> option bool -> completion jsstring.
Variable Blob : Type.
Variable asBlob : jsstring -> BlobOptions -> Blob.

(** The text branch up to "Worksheet Mode". *)
Definition text_html (isRichText : bool) (segment : TextSegment) : jsstring :=
  if isRichText then content segment
  else
    let safeText :=
      replace_char 62 (js "&gt;")
        (replace_char 60 (js "&lt;")
          (replace_char 38 (js "&amp;") (content segment))) in
    let safeText := replace_all section_marker 0 None safeText in
    let safeText := replace_all sub_item_marker 0 None safeText in
    js "<span class=" ++ dq ++ js "text-run" ++ dq ++ js ">"
      ++ replace_char ch_lf (js "<br/>") safeText ++ js "</span>".

(** "Worksheet Mode: Add lines logic" *)
Definition worksheet_lines (isRichText : bool) (style : ExportStyle)
  (segment : TextSegment) : jsstring :=
  if style_eqb style worksheet && negb isRichText then
    if includes (content segment) (js "Câu")
       || includes (content segment) (js "Bài")
       || (50 <? length (content segment))%nat
    then writingLines else []
  else [].

(** The [try] block of the math branch with its [catch]. *)
Definition math_html (style : ExportStyle) (segment : TextSegment)
  : jsstring :=
  try_catch
    (bind (renderToString (content segment) (displayMode segment))
      (fun mathML =>
        Return
          match match_first math_element mathML with
          | Some mathMatch =>
            let cleanMath := remove_first tex_annotation mathMatch in
            if truthy (displayMode segment) then
              js "<p class=" ++ dq ++ js "equation" ++ dq ++ js " style=" ++ dq
                ++ js "text-align: center; margin: 12pt 0;" ++ dq ++ js ">"
                ++ cleanMath ++ js "</p>"
                ++ (if style_eqb style worksheet
                    then js "<p style=" ++ dq ++ js "margin-bottom: 30pt;"
                           ++ dq ++ js ">&nbsp;</p>"
                    else [])
            else cleanMath
          | None => js "[Equation Error]"
          end))
    (js "[LaTeX Error]").

Definition segment_html (isRichText : bool) (style : ExportStyle)
  (segment : TextSegment) : jsstring :=
  match type segment with
  | text_seg =>
    text_html isRichText segment ++ worksheet_lines isRichText style segment
  | math_seg => math_html style segment
  end.

Definition is_text (segment : TextSegment) : bool :=
  match type segment with text_seg => true | math_seg => false end.
Definition is_math (segment : TextSegment) : bool :=
  match type segment with text_seg => false | math_seg => true end.

(** "Accumulate content": what one segment adds to [bodyContent]. *)
Definition accumulate (isFlashcard : bool) (segment : TextSegment)
  (segmentHtml : jsstring) : jsstring :=
  if isFlashcard && is_text segment && (0 <? length (trim segmentHtml))%nat
  then flashcard segmentHtml
  else if isFlashcard && is_math segment && truthy (displayMode segment)
  then flashcard segmentHtml
  else segmentHtml.

(** What one turn of [segments.forEach] appends to [bodyContent]. *)
Definition contribution (isRichText : bool) (style : ExportStyle)
  (segment : TextSegment) : jsstring :=
  let isFlashcard := style_eqb style flashcards in
  accumulate isFlashcard segment (segment_html isRichText style segment).

(** The body of [segments.forEach]. *)
Definition each_segment (isRichText : bool) (style : ExportStyle)
  (bodyContent : jsstring) (segment : TextSegment) : jsstring :=
  bodyContent ++ contribution isRichText style segment.

Definition bodyContent (segments : list TextSegment) (isRichText : bool)
  (style : ExportStyle) : jsstring :=
  fold_left (each_segment isRichText style) segments [].

Definition fullHtml (segments : list TextSegment) (isRichText : bool)
  (style : ExportStyle) : jsstring :=
  html_head (style_layout style) style
    ++ bodyContent segments isRichText style ++ html_foot.

Definition generateWordCompatibleFile (segments : list TextSegment)
  (isRichText : bool) (style : ExportStyle) : Blob :=
  asBlob (fullHtml segments isRichText style)
    {| blob_orientation := orientation (style_layout style);
       blob_margins := mkMargins 720 720 720 720 |}.

End WordExport.

(** ** App: handleExport and handleFileUpload *)

(** "Suffix based on style": the chain of [if (style === ...)]. *)
Definition export_suffix (style : ExportStyle) : jsstring :=
  match style with
  | standard => []
  | minimal => js "_print"
  | worksheet => js "_worksheet"
  | notes => js "_notes"
  | two_column => js "_exam"
  | landscape => js "_wide"
  | large_print => js "_access"
  | draft => js "_draft"
  | flashcards => js "_cards"
  end.

(** [link.download], the template [${fileName}${suffix}.docx]. *)
Definition download_name (fileName : jsstring) (style : ExportStyle)
  : jsstring :=
  fileName ++ export_suffix style ++ js ".docx".

(** [$] at the end of a pattern, without the [m] flag: the continuation
    is reached with nothing left of the subject. *)
Definition at_end {A} (k : cont A) : cont A :=
  fun caps prev s =>
    match s with
    | [] => k caps prev s
    | _ :: _ => None
    end.

(** [/\.[^/.]+$/] *)
Definition extension_pattern : regex :=
  Seq (Chr (N.eqb 46))
    (Plus true (Chr (fun c => negb ((c =? 47) || (c =? 46))))).

Definition extension_match (prev : option char) (s : jsstring)
  : option nat :=
  run extension_pattern [] prev s
    (at_end (fun _ _ s' => Some (length s - length s')%nat)).

(** [file.name.replace(/\.[^/.]+$/, "")], "Remove extension". *)
Definition remove_extension (name : jsstring) : jsstring :=
  remove_first extension_match name.

(** [String.prototype.split] with a one-character separator; [cur] is the
    piece being read. *)
Fixpoint split_char (sep : char) (cur : jsstring) (s : jsstring)
  : list jsstring :=
  match s with
  | [] => [cur]
  | c :: s' =>
    if c =? sep then cur :: split_char sep [] s'
    else split_char sep (cur ++ [c]) s'
  end.

(** [file.name.split('.').pop()], before [toLowerCase]. *)
Definition name_extension (name : jsstring) : jsstring :=
  last (split_char 46 [] name) [].

(** [file.name.split('.').pop()?.toLowerCase()], the key of the dispatch
    of [handleFileUpload]; [toLowerCase] is the method of the string, a
    parameter here. *)
Definition dispatch_extension (toLowerCase : jsstring -> jsstring)
  (name : jsstring) : jsstring :=
  toLowerCase (name_extension name).

(** ** services/gemini: the post-processing of analyzeImagesToLatex *)

(** A replacement string with numbered captures, for a global
    [replace]. *)
Definition replacement (r : regex) (template : list jsstring -> jsstring)
  (prev : option char) (s : jsstring) : option (nat * jsstring) :=
  match matches r prev s with
  | Some (n, caps) => Some (n, template caps)
  | None => None
  end.

(** [/\*\*/g] *)
Definition bold_pattern : regex := lit (js "**").

(** [[,;.]] and [[1-9]] *)
Definition is_punctuation (c : char) : bool :=
  (c =? 44) || (c =? 59) || (c =? 46).
Definition is_digit_1_9 (c : char) : bool := (49 <=? c) && (c <=? 57).

(** [/([^\n])\n*(Câu|Bài|Và)\s+([\dIVX]+[.:]?)/gi] *)
Definition heading_pattern : regex :=
  Seq (Group (Chr (fun c => negb (eq_ci ch_lf c))))
    (Seq (Star true (Chr (eq_ci ch_lf)))
      (Seq (Group (Alt (lit_with eq_ci (js "Câu"))
                    (Alt (lit_with eq_ci (js "Bài"))
                         (lit_with eq_ci (js "Và")))))
        (Seq (Plus true (Chr is_space))
          (Group (Seq (Plus true (Chr is_number_char))
                      (Opt (Chr is_dot_or_colon))))))).

(** The rule for sub-items: [([,;.]|\s)], a captured [\s*], then
    [([a-z]\))(\s)], with the [g] flag. *)
Definition sub_item_break_pattern : regex :=
  Seq (Group (Alt (Chr is_punctuation) (Chr is_space)))
    (Seq (Group (Star true (Chr is_space)))
      (Seq (Group (Seq (Chr is_lower) (Chr (N.eqb 41))))
        (Group (Chr is_space)))).

(** The rule for numbered items: [([,;.]|\s)], a captured [\s*], then
    [([1-9]\.)(\s)], with the [g] flag. *)
Definition numbered_break_pattern : regex :=
  Seq (Group (Alt (Chr is_punctuation) (Chr is_space)))
    (Seq (Group (Star true (Chr is_space)))
      (Seq (Group (Seq (Chr is_digit_1_9) (Chr (N.eqb 46))))
        (Group (Chr is_space)))).

(** [/\n{3,}/g] *)
Definition blank_lines_pattern : regex :=
  Seq (Chr (N.eqb ch_lf))
    (Seq (Chr (N.eqb ch_lf))
      (Seq (Chr (N.eqb ch_lf)) (Star true (Chr (N.eqb ch_lf))))).

(** "POST-PROCESSING FOR PROFESSIONAL VIETNAMESE MATH FORMATTING", from
    [response.text || ""] to [text.trim()]. *)
Definition postprocess (response_text : option jsstring) : jsstring :=
  let text := match response_text with Some t => t | None => [] end in
  let text := replace_all (replacement bold_pattern (fun _ => [])) 0 None text in
  let text :=
    replace_all
      (replacement heading_pattern
         (fun caps => capture caps 1 ++ [ch_lf; ch_lf] ++ capture caps 2
                        ++ js " " ++ capture caps 3))
      0 None text in
  let text :=
    replace_all
      (replacement sub_item_break_pattern
         (fun caps => [ch_lf] ++ capture caps 3 ++ capture caps 4))
      0 None text in
  let text :=
    replace_all
      (replacement numbered_break_pattern
         (fun caps => [ch_lf] ++ capture caps 3 ++ capture caps 4))
      0 None text in
  let text :=
    replace_all (replacement blank_lines_pattern (fun _ => [ch_lf; ch_lf]))
      0 None text in
  trim text.

(** ** components/MathPreview *)

Section Preview.

(** [katex.renderToString(content, { throwOnError: false, displayMode,
    output: 'html' })] *)
Variable renderHtml : jsstring -> option bool -> completion jsstring.

(** The rich-text branch: [segments.map(...).join('')]. *)
Definition preview_segment (segment : TextSegment) : jsstring :=
  match type segment with
  | text_seg => content segment
  | math_seg =>
    try_catch (renderHtml (content segment) (displayMode segment))
      (js "<span class=" ++ dq ++ js "text-red-500 font-bold" ++ dq
         ++ js ">[Error: " ++ content segment ++ js "]</span>")
  end.

Definition htmlContent (segments : list TextSegment) : jsstring :=
  List.concat (map preview_segment segments).

End Preview.

(** *** HighlightedText *)

(** The two alternatives of the pattern of [content.split], a capturing
    group each, under the flags [gi]:
    [(?:^|\n)(?:Câu|Bài)\s+[\dIVX]+[.:]?] and [(?:^|\n)[a-z]\)\s]. *)
Definition heading_part_pattern : regex :=
  Group
    (Seq (Alt Bol (Chr (eq_ci ch_lf)))
      (Seq (Alt (lit_with eq_ci (js "Câu")) (lit_with eq_ci (js "Bài")))
        (Seq (Plus true (Chr is_space))
          (Seq (Plus true (Chr is_number_char))
               (Opt (Chr is_dot_or_colon)))))).

Definition is_letter_ci (c : char) : bool :=
  (97 <=? canonicalize c + 32) && (canonicalize c + 32 <=? 122).

Definition sub_item_part_pattern : regex :=
  Group
    (Seq (Alt Bol (Chr (eq_ci ch_lf)))
      (Seq (Chr is_letter_ci) (Seq (Chr (eq_ci 41)) (Chr is_space)))).

(** A match of the whole pattern at a position: its length and the two
    captures, of which the one of the alternative that did not take part
    is [undefined]. *)
Definition split_pattern (prev : option char) (s : jsstring)
  : option (nat * list (option jsstring)) :=
  match matches heading_part_pattern prev s with
  | Some (n, caps) => Some (n, [Some (capture caps 1); None])
  | None =>
    match matches sub_item_part_pattern prev s with
    | Some (n, caps) => Some (n, [None; Some (capture caps 1)])
    | None => None
    end
  end.

(** [String.prototype.split] with a pattern that has capturing groups.
    [cur] is the piece read since the last match, [skip] counts the
    characters of a match that are still to be passed.  A match that
    takes no character does not split. *)
Fixpoint split_go
  (m : option char -> jsstring -> option (nat * list (option jsstring)))
  (skip : nat) (cur : jsstring) (prev : option char) (s : jsstring)
  : list (option jsstring) :=
  match s with
  | [] => [Some cur]
  | c :: s' =>
    match skip with
    | S k => split_go m k [] (Some c) s'
    | O =>
      match m prev s with
      | Some (S k, caps) => Some cur :: caps ++ split_go m k [] (Some c) s'
      | _ => split_go m 0 (cur ++ [c]) (Some c) s'
      end
    end
  end.

Definition split_regex
  (m : option char -> jsstring -> option (nat * list (option jsstring)))
  (s : jsstring) : list (option jsstring) :=
  match s with
  | [] => match m None [] with Some _ => [] | None => [Some []] end
  | _ :: _ => split_go m 0 [] None s
  end.

(** The classes of the spans of [HighlightedText]. *)
Inductive SpanClass := brand_600 | brand_700 | no_class.

(** [/^(?:\n)?(Câu|Bài)\s+[\dIVX]+[.:]?/i] and [/^(?:\n)?[a-z]\)\s/i],
    tested on a part: [^] holds at its start. *)
Definition heading_test_pattern : regex :=
  Seq Bol
    (Seq (Opt (Chr (eq_ci ch_lf)))
      (Seq (Group (Alt (lit_with eq_ci (js "Câu"))
                       (lit_with eq_ci (js "Bài"))))
        (Seq (Plus true (Chr is_space))
          (Seq (Plus true (Chr is_number_char))
               (Opt (Chr is_dot_or_colon)))))).

Definition sub_item_test_pattern : regex :=
  Seq Bol
    (Seq (Opt (Chr (eq_ci ch_lf)))
      (Seq (Chr is_letter_ci) (Seq (Chr (eq_ci 41)) (Chr is_space)))).

(** [RegExp.prototype.test] for a pattern that starts with [^]. *)
Definition test_at_start (r : regex) (s : jsstring) : bool :=
  match matches r None s with Some _ => true | None => false end.

(** [parts.map]: a part that is [undefined] or empty gives nothing. *)
Definition highlighted_span (part : option jsstring)
  : option (SpanClass * jsstring) :=
  match part with
  | None | Some [] => None
  | Some p =>
    if test_at_start heading_test_pattern p then Some (brand_600, p)
    else if test_at_start sub_item_test_pattern p then Some (brand_700, p)
    else Some (no_class, p)
  end.

Definition HighlightedText (content : jsstring)
  : list (option (SpanClass * jsstring)) :=
  map highlighted_span (split_regex split_pattern content).

(** ** App: reading files *)

(** [result.split(',')[1]], the data of a data URL; [undefined] when the
    URL has no comma. *)
Definition base64_of_data_url (result : jsstring) : option jsstring :=
  nth_error (split_char 44 [] result) 1.

Record InlineImage := { mimeType : jsstring; data : option jsstring }.

(** A loaded PDF document: the number of its pages, and for a page number
    what [canvas.toDataURL('image/jpeg', 0.8)] gives once the page is
    rendered, or nothing when the canvas has no 2d context. *)
Record PDFDocument := {
  numPages : nat;
  page_data_url : nat -> option jsstring
}.

(** The [for] loop of [convertPdfToImages], from page [i], for [count]
    more pages. *)
Fixpoint render_pages (pdf : PDFDocument) (i count : nat)
  (images : list InlineImage) : list InlineImage :=
  match count with
  | O => images
  | S count' =>
    let images :=
      match page_data_url pdf i with
      | Some url =>
        images ++ [{| mimeType := js "image/jpeg";
                      data := base64_of_data_url url |}]
      | None => images
      end in
    render_pages pdf (S i) count' images
  end.

Definition convertPdfToImages (pdf : PDFDocument) (maxPages : nat)
  : list InlineImage :=
  render_pages pdf 1 (Nat.min (numPages pdf) maxPages) [].

(** The default of [maxPages], with which [handleFileUpload] calls. *)
Definition default_maxPages : nat := 5.

(** ** services/gemini and components/GeminiChat: the chat *)

Module Chat.

Inductive MessageRole := User | Model.

(** An [id] is ['init'] or the decimal form of a reading of the clock. *)
Inductive MessageId := init_id | time_id (t : N).

Definition id_eqb (a b : MessageId) : bool :=
  match a, b with
  | init_id, init_id => true
  | time_id x, time_id y => x =? y
  | _, _ => false
  end.

Record ChatMessage := {
  id : MessageId;
  role : MessageRole;
  text : jsstring;
  isError : option bool
}.

(** What [chat.sendMessageStream] does with a message: the call is
    rejected, or it gives a stream of chunks, whose [text] may be
    [undefined], that ends or fails after them. *)
Inductive Response :=
  | Rejected
  | Stream (chunks : list (option jsstring)) (completes : bool).

Definition Session := jsstring -> Response.

(** [if (chunk.text) yield chunk.text] *)
Fixpoint streamGenerator (chunks : list (option jsstring)) : list jsstring :=
  match chunks with
  | [] => []
  | Some (c :: t) :: rest => (c :: t) :: streamGenerator rest
  | Some [] :: rest | None :: rest => streamGenerator rest
  end.

Definition sendMessageToGemini (chat : Session) (message : jsstring)
  : completion (list jsstring * bool) :=
  match chat message with
  | Rejected => Throw
  | Stream chunks completes => Return (streamGenerator chunks, completes)
  end.

Record State := {
  messages : list ChatMessage;
  input : jsstring;
  isLoading : bool
}.

(** The three readings of [Date.now()] of one [handleSend]. *)
Record Clock := { at_send : N; at_reply : N; at_error : N }.

(** [prev.map(msg => msg.id === botMsgId ? { ...msg, text: fullText } : msg)] *)
Definition set_text (botMsgId : MessageId) (fullText : jsstring)
  (prev : list ChatMessage) : list ChatMessage :=
  map (fun msg =>
         if id_eqb (id msg) botMsgId
         then {| id := id msg; role := role msg; text := fullText;
                 isError := isError msg |}
         else msg) prev.

(** [for await (const chunk of stream)] *)
Fixpoint for_await (botMsgId : MessageId) (fullText : jsstring)
  (stream : list jsstring) (msgs : list ChatMessage) : list ChatMessage :=
  match stream with
  | [] => msgs
  | chunk :: rest =>
    let fullText := fullText ++ chunk in
    for_await botMsgId fullText rest (set_text botMsgId fullText msgs)
  end.

Definition error_message (t : N) : ChatMessage :=
  {| id := time_id t; role := Model;
     text := js "Sorry, I encountered an error connecting to Gemini.";
     isError := Some true |}.

Definition handleSend (now : Clock) (session : option Session) (st : State)
  : State :=
  match session with
  | None => st
  | Some chat =>
    match trim (input st) with
    | [] => st
    | _ :: _ =>
      if isLoading st then st
      else
        let userMsg :=
          {| id := time_id (at_send now); role := User; text := input st;
             isError := None |} in
        let msgs := messages st ++ [userMsg] in
        let msgs :=
          match sendMessageToGemini chat (text userMsg) with
          | Throw => msgs ++ [error_message (at_error now)]
          | Return (stream, completes) =>
            let botMsgId := time_id (at_reply now + 1) in
            let msgs :=
              msgs ++ [{| id := botMsgId; role := Model; text := [];
                          isError := None |}] in
            let msgs := for_await botMsgId [] stream msgs in
            if completes then msgs
            else msgs ++ [error_message (at_error now)]
          end in
        {| messages := msgs; input := []; isLoading := false |}
    end
  end.

End Chat.

(** ** Vocabulary of the statements *)

(** The two kinds of segment, as [parseContent] builds them. *)
Definition Text (s : string) : TextSegment := mkSegment text_seg (js s) None.
Definition Math (s : string) (d : bool) : TextSegment :=
  mkSegment math_seg (js s) (Some d).

(** The first of two attempts that succeeds. *)
Definition orElse {A} (a b : option A) : option A :=
  match a with Some _ => a | None => b end.

(** The delimited patterns in closed form.  [lazy_until close allowed s]
    is [C*?close] at the start of [s], where [allowed] decides the class
    [C]: the lazy star stops where [close] follows, and takes one more
    character of the class where it does not.  The result is the number
    of characters the star took. *)
Fixpoint lazy_until (close : jsstring) (allowed : char -> bool) (s : jsstring)
  : option nat :=
  if startsWith s close then Some 0%nat
  else match s with
       | [] => None
       | c :: s' =>
         if allowed c then option_map S (lazy_until close allowed s') else None
       end.

(** [open C*? close] at the start of [s]; the length of the match. *)
Definition delimited (open close : jsstring) (allowed : char -> bool)
  (s : jsstring) : option nat :=
  if startsWith s open then
    match lazy_until close allowed (skipn (length open) s) with
    | Some k => Some (length open + k + length close)%nat
    | None => None
    end
  else None.


(** The alternatives of the pattern of [parseContent], each by itself. *)
Definition alt_dollars (s : jsstring) : option nat :=
  match_length dollars_pattern None s.
Definition alt_bracket (s : jsstring) : option nat :=
  match_length bracket_pattern None s.
Definition alt_paren (s : jsstring) : option nat :=
  match_length paren_pattern None s.
Definition alt_dollar (prev : option char) (s : jsstring) : option nat :=
  match_length dollar_pattern prev s.

(** The four delimiter pairs, and a math segment put back between one. *)
Inductive Delimiter := DDollars | DBracket | DParen | DDollar.

Definition open_of (d : Delimiter) : jsstring :=
  match d with
  | DDollars => js "$$" | DBracket => js "\[" | DParen => js "\(" | DDollar => js "$"
  end.

Definition close_of (d : Delimiter) : jsstring :=
  match d with
  | DDollars => js "$$" | DBracket => js "\]" | DParen => js "\)" | DDollar => js "$"
  end.

Definition display_of (d : Delimiter) : bool :=
  match d with
  | DDollars | DBracket => true
  | DParen | DDollar => false
  end.

Definition redelimit (d : Delimiter) (seg : TextSegment) : jsstring :=
  match type seg with
  | text_seg => content seg
  | math_seg => open_of d ++ content seg ++ close_of d
  end.

(** The segments in their delimited forms, one after the other; the
    delimiter listed for a text segment is not used. *)
Fixpoint reassemble (segs : list TextSegment) (ds : list Delimiter)
  : jsstring :=
  match segs, ds with
  | seg :: segs', d :: ds' => redelimit d seg ++ reassemble segs' ds'
  | _, _ => []
  end.

(** What a match of the whole pattern looks like: [d] is the alternative
    that matched and [c] what stands between its delimiters. *)
Definition match_shape (d : Delimiter) (c : jsstring) : Prop :=
  d = DDollar -> forallb not_dollar c = true.

(** The mode of a math segment belongs to the delimiter it is put back
    between, but for the empty [$]-pair. *)
Definition mode_agrees (seg : TextSegment) (d : Delimiter) : Prop :=
  type seg = math_seg ->
  displayMode seg = Some (display_of d) \/
  d = DDollar /\ content seg = [] /\ displayMode seg = Some true.

(** A text with at most one [$] and neither [\[] nor [\(]. *)
Definition count_dollars (s : jsstring) : nat :=
  length (filter (fun c => c =? ch_dollar) s).

Definition no_delimiters (s : jsstring) : Prop :=
  (count_dollars s <= 1)%nat /\
  includes s (js "\[") = false /\ includes s (js "\(") = false.

(** The whole input as literal text. *)
Definition literal (text : jsstring) : list TextSegment :=
  match text with
  | [] => []
  | _ :: _ => [mkSegment text_seg text None]
  end.





(** A line feed, an indentation and a line of markup. *)
Definition line (indent : nat) (s : jsstring) : jsstring :=
  ch_lf :: repeat 32 indent ++ s.






(** The footer, line by line. *)
Definition author_credit : jsstring :=
  js "Thầy Vũ Tiến Lực - Trường THPT Nguyễn Hữu Cảnh".

Definition footer : jsstring :=
  line 12 [] ++ line 12 (js "<br/>") ++
  line 12 (js "<hr/>") ++
  line 12 (js "<p style=" ++ dq
           ++ js "text-align: center; color: #2E74B5; font-size: 10pt; font-weight: bold; margin-top: 20pt;"
           ++ dq ++ js ">") ++
  line 16 author_credit ++
  line 12 (js "</p>") ++
  line 8 (js "</div>") ++ line 4 (js "</body>") ++ line 4 (js "</html>") ++
  line 2 [].

(** The three dotted lines of the worksheet. *)
Definition dotted_line : jsstring :=
  js "<p style=" ++ dq
    ++ js "border-bottom: 1px dotted #999; line-height: 24pt;" ++ dq
    ++ js ">&nbsp;</p>".

Definition answer_lines : jsstring :=
  line 4 (js "<div style=" ++ dq
          ++ js "margin-top: 10pt; margin-bottom: 20pt; color: #999;" ++ dq
          ++ js ">") ++
  line 8 dotted_line ++ line 8 dotted_line ++ line 8 dotted_line ++
  line 4 (js "</div>") ++ line 2 [].

Definition spacer_line : jsstring :=
  js "<p style=" ++ dq ++ js "margin-bottom: 30pt;" ++ dq ++ js ">&nbsp;</p>".

Definition equation_paragraph (math : jsstring) : jsstring :=
  js "<p class=" ++ dq ++ js "equation" ++ dq ++ js " style=" ++ dq
    ++ js "text-align: center; margin: 12pt 0;" ++ dq ++ js ">"
    ++ math ++ js "</p>".

(** The two highlight spans, with the colour as a parameter. *)
Definition highlight (color : string) (s : jsstring) : jsstring :=
  js "<span style=" ++ dq ++ js "color: " ++ js color
    ++ js "; font-weight: bold;" ++ dq ++ js ">" ++ s ++ js "</span>".

Definition text_run (s : jsstring) : jsstring :=
  js "<span class=" ++ dq ++ js "text-run" ++ dq ++ js ">" ++ s
    ++ js "</span>".


(** The text qualifies for answer lines. *)
Definition qualifies (s : jsstring) : bool :=
  includes s (js "Câu") || includes s (js "Bài") || (50 <? length s)%nat.

(** ** Further vocabulary *)

(** A segment as the loop of [parseContent] pushes it: a text segment is
    not empty and has no mode; a math segment has a mode, and its content
    does not hold the closing delimiter of the pair it stood between. *)
Definition segment_from (seg : TextSegment) (d : Delimiter) : Prop :=
  match type seg with
  | text_seg => content seg <> [] /\ displayMode seg = None
  | math_seg =>
    (exists b, displayMode seg = Some b) /\
    includes (content seg) (close_of d) = false
  end.

(** No two text segments in a row. *)
Fixpoint alternating (segs : list TextSegment) : bool :=
  match segs with
  | a :: (b :: _) as rest =>
    negb (is_text a && is_text b) && alternating rest
  | _ => true
  end.

(** The last segment, if there is one, is a math segment. *)
Definition last_is_math (segs : list TextSegment) : bool :=
  is_math (last segs (mkSegment math_seg [] None)).

Definition count_math (segs : list TextSegment) : nat :=
  length (filter is_math segs).

Definition content_length (segs : list TextSegment) : nat :=
  list_sum (map (fun seg => length (content seg)) segs).

(** The class of the characters between a pair of delimiters. *)
Definition allowed_of (d : Delimiter) : char -> bool :=
  match d with
  | DDollar => not_dollar
  | _ => any_char
  end.

(** [c] can stand between the delimiters [d]: read from the start of [c],
    the closing delimiter is first found behind [c], and an empty [c]
    does not stand between single dollars. *)
Definition spans (d : Delimiter) (c : jsstring) : bool :=
  match lazy_until (close_of d) (allowed_of d) (c ++ close_of d) with
  | Some k => (k =? length c)%nat
  | None => false
  end
  && match d, c with
     | DDollar, [] => false
     | _, _ => true
     end.

(** A text without dollars and backslashes. *)
Definition plain (s : jsstring) : bool :=
  forallb (fun c => negb (c =? ch_dollar) && negb (c =? ch_backslash)) s.

(** The character before the position behind [pre]. *)
Definition prev_after (prev : option char) (pre : jsstring) : option char :=
  fold_left (fun _ c => Some c) pre prev.

(** The position does not follow a backslash. *)
Definition not_escaped (prev : option char) : bool :=
  match prev with
  | Some c => negb (c =? ch_backslash)
  | None => true
  end.

(** The three replacements at the head of the plain-text branch of
    [generateWordCompatibleFile], by themselves. *)
Definition escape_html (s : jsstring) : jsstring :=
  replace_char 62 (js "&gt;")
    (replace_char 60 (js "&lt;") (replace_char 38 (js "&amp;") s)).

(** The entity of a character. *)
Definition entity (c : char) : jsstring :=
  if c =? 38 then js "&amp;"
  else if c =? 60 then js "&lt;"
  else if c =? 62 then js "&gt;"
  else [c].

(** [[^/.]] *)
Definition not_separator (c : char) : bool := negb ((c =? 47) || (c =? 46)).

(** What a pattern can match: [Matches r prev w caps] says that [r]
    matches the text [w] behind the character [prev] and captures
    [caps] on the way. *)
Inductive Matches : regex -> option char -> jsstring -> list jsstring -> Prop :=
  | M_eps prev : Matches Eps prev [] []
  | M_chr p c prev : p c = true -> Matches (Chr p) prev [c] []
  | M_seq a b prev w1 w2 c1 c2 :
      Matches a prev w1 c1 -> Matches b (prev_after prev w1) w2 c2 ->
      Matches (Seq a b) prev (w1 ++ w2) (c1 ++ c2)
  | M_alt_l a b prev w c : Matches a prev w c -> Matches (Alt a b) prev w c
  | M_alt_r a b prev w c : Matches b prev w c -> Matches (Alt a b) prev w c
  | M_star_stop g a prev : Matches (Star g a) prev [] []
  | M_star_turn g a prev w1 w2 c1 c2 :
      Matches a prev w1 c1 -> Matches (Star g a) (prev_after prev w1) w2 c2 ->
      Matches (Star g a) prev (w1 ++ w2) (c1 ++ c2)
  | M_opt_some a prev w c : Matches a prev w c -> Matches (Opt a) prev w c
  | M_opt_none a prev : Matches (Opt a) prev [] []
  | M_bol : Matches Bol None [] []
  | M_not_behind p prev :
      match prev with Some c => p c = false | None => True end ->
      Matches (NotBehind p) prev [] []
  | M_group a prev w c : Matches a prev w c -> Matches (Group a) prev w (c ++ [w]).

(** The characters at the head of [s] that are in a class, and what
    follows them. *)
Fixpoint take_while (p : char -> bool) (s : jsstring) : jsstring :=
  match s with
  | c :: s' => if p c then c :: take_while p s' else []
  | [] => []
  end.

Fixpoint drop_while (p : char -> bool) (s : jsstring) : jsstring :=
  match s with
  | c :: s' => if p c then drop_while p s' else s
  | [] => []
  end.

Definition is_lf (c : char) : bool := ch_lf =? c.

(** No three line feeds in a row; [j] counts the line feeds right
    before the text. *)
Fixpoint lf_ok (j : nat) (l : jsstring) : bool :=
  match l with
  | [] => true
  | c :: l' => if c =? ch_lf then (j <? 2)%nat && lf_ok (S j) l'
               else lf_ok 0 l'
  end.

(** What may follow [j] line feeds that were copied to the output. *)
Definition lf_guard (j : nat) (s : jsstring) : bool :=
  match j with
  | O => true
  | S O => negb (startsWith s [ch_lf; ch_lf])
  | _ => negb (startsWith s [ch_lf])
  end.

(** No two stars in a row; [b] says that a star stands right before the
    text. *)
Fixpoint no_pair (b : bool) (l : jsstring) : bool :=
  match l with
  | [] => true
  | c :: l' => negb (b && (c =? 42)) && no_pair (c =? 42) l'
  end.

Definition star_free (l : jsstring) : bool :=
  forallb (fun c => negb (c =? 42)) l.

(** Every character class of the pattern rejects [x]. *)
Fixpoint rejects (x : char) (r : regex) : bool :=
  match r with
  | Chr p => negb (p x)
  | Seq a b | Alt a b => rejects x a && rejects x b
  | Star _ a | Opt a | Group a => rejects x a
  | Eps | Bol | NotBehind _ => true
  end.

(** The least number of characters a match of the pattern takes. *)
Fixpoint min_length (r : regex) : nat :=
  match r with
  | Chr _ => 1
  | Seq a b => min_length a + min_length b
  | Alt a b => Nat.min (min_length a) (min_length b)
  | Group a => min_length a
  | Star _ _ | Opt _ | Eps | Bol | NotBehind _ => 0
  end.

(** A replacement that cannot bring two stars together: it replaces a
    match that is not empty by a text that is not empty and holds no star,
    or by the first character of the match followed by such a text. *)
Definition keeps_stars_apart
  (m : option char -> jsstring -> option (nat * jsstring)) : Prop :=
  forall prev s n r,
    m prev s = Some (n, r) ->
    exists w rest r',
      s = w ++ rest /\ n = length w /\ w <> [] /\
      r' <> [] /\ star_free r' = true /\
      (r = r' \/ exists c w', w = c :: w' /\ r = c :: r').

(** The text of a part of a split, nothing for [undefined]. *)
Definition part_text (part : option jsstring) : jsstring :=
  match part with Some p => p | None => [] end.

(** The text a span of the highlighted preview shows. *)
Definition span_text (span : option (SpanClass * jsstring)) : jsstring :=
  match span with Some (_, p) => p | None => [] end.

(** A pattern without capturing groups. *)
Fixpoint group_free (r : regex) : bool :=
  match r with
  | Group _ => false
  | Seq a b | Alt a b => group_free a && group_free b
  | Star _ a | Opt a => group_free a
  | Eps | Chr _ | Bol | NotBehind _ => true
  end.

(** A matcher for [split] whose captures spell the match. *)
Definition spells_match
  (m : option char -> jsstring -> option (nat * list (option jsstring)))
  : Prop :=
  forall prev s n caps,
    m prev s = Some (n, caps) ->
    List.concat (map part_text caps) = firstn n s.

(** The reply of the model as the chat shows it. *)
Definition reply (t : N) (chunks : list (option jsstring))
  : Chat.ChatMessage :=
  {| Chat.id := Chat.time_id (t + 1); Chat.role := Chat.Model;
     Chat.text := List.concat (map part_text chunks);
     Chat.isError := None |}.

Definition question (t : N) (input : jsstring) : Chat.ChatMessage :=
  {| Chat.id := Chat.time_id t; Chat.role := Chat.User;
     Chat.text := input; Chat.isError := None |}.

(** ** Delimiters without a partner *)



(** Read from the start of [c] with the closing delimiter of [d] behind
    it, that delimiter is first found behind [c]: the content does not
    reach past its own closing delimiter. *)
Definition closes_behind (d : Delimiter) (c : jsstring) : bool :=
  match lazy_until (close_of d) (allowed_of d) (c ++ close_of d) with
  | Some k => (k =? length c)%nat
  | None => false
  end.




(** ** The style sheet of a row of the layout table *)








(** ** Facts about strings *)

Lemma startsWith_app (p r : jsstring) : startsWith (p ++ r) p = true.
Proof.
  induction p as [|x p IH]; simpl; [reflexivity|].
  now rewrite N.eqb_refl, IH.
Qed.

Lemma startsWith_true (s p : jsstring) :
  startsWith s p = true -> s = p ++ skipn (length p) s.
Proof.
  revert s; induction p as [|x p IH]; intros s H; simpl in *; [reflexivity|].
  destruct s as [|y s]; [discriminate|].
  apply andb_true_iff in H as [Hxy Hs].
  apply N.eqb_eq in Hxy; subst y.
  simpl. f_equal. now apply IH.
Qed.

Lemma startsWith_length (s p : jsstring) :
  startsWith s p = true -> (length p <= length s)%nat.
Proof.
  intros H. apply startsWith_true in H.
  rewrite H, length_app. lia.
Qed.

Lemma slice_nat (s : jsstring) (a b : nat) :
  (a <= b <= length s)%nat ->
  slice s (Z.of_nat a) (Z.of_nat b) = firstn (b - a) (skipn a s).
Proof.
  intros H. unfold slice, slice_index.
  destruct (Z.ltb_spec (Z.of_nat a) 0); [lia|].
  destruct (Z.ltb_spec (Z.of_nat b) 0); [lia|].
  rewrite !Nat2Z.id, !Nat.min_l by lia. reflexivity.
Qed.

Lemma slice_from_nat (s : jsstring) (a : nat) :
  (a <= length s)%nat -> slice_from s (Z.of_nat a) = skipn a s.
Proof.
  intros H. unfold slice_from, slice_index.
  destruct (Z.ltb_spec (Z.of_nat a) 0); [lia|].
  rewrite Nat2Z.id, Nat.min_l by lia. reflexivity.
Qed.

(** [(o + c + cl).slice(o.length, -cl.length)] is [c]. *)
Lemma slice_strip (o c cl : jsstring) :
  cl <> [] ->
  slice (o ++ c ++ cl) (Z.of_nat (length o)) (- Z.of_nat (length cl)) = c.
Proof.
  intros Hcl. unfold slice, slice_index.
  assert (0 < length cl)%nat by (destruct cl; [congruence | simpl; lia]).
  destruct (Z.ltb_spec (Z.of_nat (length o)) 0); [lia|].
  destruct (Z.ltb_spec (- Z.of_nat (length cl)) 0); [|lia].
  rewrite !length_app, Nat2Z.id.
  rewrite Nat.min_l by lia.
  replace (Z.to_nat _) with (length o + length c)%nat by lia.
  rewrite skipn_app, skipn_all, Nat.sub_diag. simpl.
  replace (length o + length c - length o)%nat with (length c + 0)%nat by lia.
  rewrite firstn_app_2. simpl. apply app_nil_r.
Qed.

Lemma firstn_skipn_split (s : jsstring) (a b : nat) :
  (a <= b)%nat -> firstn a s ++ firstn (b - a) (skipn a s) = firstn b s.
Proof.
  intros H. rewrite <- (firstn_skipn a (firstn b s)).
  rewrite firstn_firstn, Nat.min_l by lia.
  f_equal. now rewrite skipn_firstn_comm.
Qed.

Lemma skipn_cons_inv (s : jsstring) (i : nat) (c : char) (r : jsstring) :
  skipn i s = c :: r -> nth_error s i = Some c /\ skipn (S i) s = r.
Proof.
  revert s; induction i as [|i IH]; intros [|x s] H; simpl in *;
    try discriminate.
  - inversion H; subst. split; [reflexivity|]. now destruct r.
  - apply IH in H as [H1 H2]. split; assumption.
Qed.

(** ** Facts about the regular expression *)

Lemma lazy_until_spec (close : jsstring) (allowed : char -> bool) :
  forall (s : jsstring) (k : nat),
    lazy_until close allowed s = Some k ->
    forallb allowed (firstn k s) = true /\
    startsWith (skipn k s) close = true /\ (k <= length s)%nat.
Proof.
  induction s as [|c s IH]; intros k H.
  - cbn [lazy_until] in H.
    destruct (startsWith [] close) eqn:E; [|discriminate].
    inversion H; subst. simpl. auto.
  - cbn [lazy_until] in H.
    destruct (startsWith (c :: s) close) eqn:E.
    + inversion H; subst. simpl. split; [reflexivity|]. split; [exact E | lia].
    + destruct (allowed c) eqn:Ea; [|discriminate].
      destruct (lazy_until close allowed s) as [k'|] eqn:El; [|discriminate].
      inversion H; subst. destruct (IH k' eq_refl) as (H1 & H2 & H3).
      simpl. rewrite Ea, H1. split; [reflexivity|]. split; [exact H2 | lia].
Qed.

(** A match of [open C*? close] is [open], then some characters of the
    class, then [close]. *)
Lemma delimited_spec (open close : jsstring) (allowed : char -> bool)
  (s : jsstring) (n : nat) :
  delimited open close allowed s = Some n ->
  exists c : jsstring,
    forallb allowed c = true /\
    n = (length open + length c + length close)%nat /\
    s = (open ++ c ++ close) ++ skipn n s.
Proof.
  unfold delimited. intros H.
  destruct (startsWith s open) eqn:Eo; [|discriminate].
  destruct (lazy_until close allowed (skipn (length open) s)) as [k|] eqn:El;
    [|discriminate].
  inversion H; subst n; clear H.
  apply lazy_until_spec in El as (Ha & Hc & Hk).
  apply startsWith_true in Eo. apply startsWith_true in Hc.
  set (r := skipn (length open) s) in *.
  exists (firstn k r).
  split; [assumption|].
  rewrite firstn_length_le by assumption.
  split; [reflexivity|].
  rewrite <- !app_assoc.
  rewrite Eo at 1. f_equal. fold r.
  rewrite <- (firstn_skipn k r) at 1. f_equal.
  rewrite Hc at 1. f_equal.
  unfold r. rewrite !skipn_skipn. f_equal. lia.
Qed.


(** ** The matcher on the patterns of the module *)

Lemma delimited_le (open close : jsstring) (allowed : char -> bool)
  (s : jsstring) (n : nat) :
  delimited open close allowed s = Some n -> (n <= length s)%nat.
Proof.
  intros H. apply delimited_spec in H as (c & _ & Hn & Hs).
  rewrite Hs, !length_app. lia.
Qed.

Section Matcher.

Context {A : Type}.
(** The continuation at the end of a pattern: it takes what is left. *)
Variable k : cont A.
Variable final : list jsstring -> jsstring -> A.
Hypothesis k_final : forall caps prev s, k caps prev s = Some (final caps s).

Lemma run_lit_with (eq : char -> char -> bool) (p : jsstring)
  (k' : cont A) :
  (forall x y, eq x y = (y =? x)) ->
  forall caps prev s,
    run (lit_with eq p) caps prev s k'
    = if startsWith s p
      then k' caps (fold_left (fun _ c => Some c) p prev)
              (skipn (length p) s)
      else None.
Proof.
  intros Heq. induction p as [|x p IH]; intros caps prev s.
  - reflexivity.
  - cbn [lit_with fold_right run startsWith fold_left length].
    destruct s as [|y s]; [reflexivity|].
    rewrite Heq. destruct (N.eqb_spec y x) as [->|]; [|reflexivity].
    cbn [andb skipn]. apply IH.
Qed.

Lemma run_lit (p : jsstring) (k' : cont A) (caps : list jsstring)
  (prev : option char) (s : jsstring) :
  run (lit p) caps prev s k'
  = if startsWith s p
    then k' caps (fold_left (fun _ c => Some c) p prev) (skipn (length p) s)
    else None.
Proof. apply run_lit_with. intros x y. apply N.eqb_sym. Qed.

(** The lazy star of a class in front of a literal stops at the first
    place where the literal follows. *)
Lemma turns_lazy_class (allowed : char -> bool) (close : jsstring)
  (caps : list jsstring) :
  forall (s : jsstring) (n : nat) (prev : option char),
    (length s <= n)%nat ->
    turns (run (Chr allowed)) false
      (fun caps' prev' s' => run (lit close) caps' prev' s' k) n caps prev s
    = match lazy_until close allowed s with
      | Some j => Some (final caps (skipn (j + length close) s))
      | None => None
      end.
Proof.
  induction s as [|c s IH]; intros n prev Hn.
  - destruct n; cbn [turns lazy_until]; rewrite run_lit;
      destruct (startsWith [] close); rewrite ?k_final; reflexivity.
  - destruct n as [|n]; [cbn in Hn; lia|].
    cbn [turns lazy_until]. rewrite run_lit.
    destruct (startsWith (c :: s) close).
    + rewrite k_final. reflexivity.
    + cbn [run]. destruct (allowed c); [|reflexivity].
      rewrite IH by (cbn in Hn; lia).
      destruct (lazy_until close allowed s); reflexivity.
Qed.

(** [open C*? close] run by the matcher is [delimited]. *)
Lemma run_delimited (open close : jsstring) (allowed : char -> bool)
  (caps : list jsstring) (prev : option char) (s : jsstring) :
  run (Seq (lit open) (Seq (Star false (Chr allowed)) (lit close)))
    caps prev s k
  = match delimited open close allowed s with
    | Some n => Some (final caps (skipn n s))
    | None => None
    end.
Proof.
  cbn [run]. rewrite run_lit. unfold delimited.
  destruct (startsWith s open); [|reflexivity].
  pose proof (turns_lazy_class allowed close caps (skipn (length open) s) _
                (fold_left (fun _ c => Some c) open prev) (Nat.le_refl _))
    as H.
  cbn [run] in H. rewrite H. clear H.
  destruct (lazy_until close allowed (skipn (length open) s)) as [j|];
    [|reflexivity].
  rewrite skipn_skipn. do 2 f_equal. f_equal. lia.
Qed.

End Matcher.

Lemma match_length_delimited (open close : jsstring)
  (allowed : char -> bool) (prev : option char) (s : jsstring) :
  match_length (Seq (lit open) (Seq (Star false (Chr allowed)) (lit close)))
    prev s
  = delimited open close allowed s.
Proof.
  unfold match_length, matches.
  rewrite (run_delimited _ (fun caps s' => ((length s - length s')%nat, caps)))
    by reflexivity.
  destruct (delimited open close allowed s) as [n|] eqn:E; [|reflexivity].
  apply delimited_le in E. cbn. rewrite length_skipn. f_equal. lia.
Qed.

Lemma alt_dollars_delimited (s : jsstring) :
  alt_dollars s = delimited (js "$$") (js "$$") any_char s.
Proof. apply match_length_delimited. Qed.

Lemma alt_bracket_delimited (s : jsstring) :
  alt_bracket s = delimited (js "\[") (js "\]") any_char s.
Proof. apply match_length_delimited. Qed.

Lemma alt_paren_delimited (s : jsstring) :
  alt_paren s = delimited (js "\(") (js "\)") any_char s.
Proof. apply match_length_delimited. Qed.

Lemma alt_dollar_delimited (prev : option char) (s : jsstring) :
  alt_dollar prev s
  = match prev with
    | Some c => if c =? ch_backslash then None
                else delimited (js "$") (js "$") not_dollar s
    | None => delimited (js "$") (js "$") not_dollar s
    end.
Proof.
  unfold alt_dollar, dollar_pattern.
  pose proof (match_length_delimited (js "$") (js "$") not_dollar) as H.
  unfold match_length, matches in *. cbn [run] in *.
  destruct prev as [c|]; [destruct (c =? ch_backslash)|]; auto.
Qed.

(** The alternation of the pattern tries its four branches from left to
    right, and the group around it takes the whole match. *)
Lemma latex_regex_alternatives (prev : option char) (s : jsstring) :
  latex_regex prev s
  = orElse (alt_dollars s)
      (orElse (alt_bracket s) (orElse (alt_paren s) (alt_dollar prev s))).
Proof.
  rewrite alt_dollars_delimited, alt_bracket_delimited, alt_paren_delimited,
    alt_dollar_delimited.
  unfold latex_regex, match_length, matches, latex_pattern.
  cbn [run].
  set (g := fun (caps : list jsstring) (s' : jsstring) =>
              ((length s - length s')%nat,
               caps ++ [firstn (length s - length s') s])).
  assert (Hlen : forall n, (n <= length s)%nat ->
            option_map fst (Some (g [] (skipn n s))) = Some n).
  { intros n Hn. cbn. rewrite length_skipn. f_equal. lia. }
  unfold dollars_pattern, bracket_pattern, paren_pattern, dollar_pattern.
  rewrite (run_delimited _ g) by reflexivity.
  destruct (delimited (js "$$") (js "$$") any_char s) as [n|] eqn:E1.
  { apply Hlen. eapply delimited_le; eassumption. }
  rewrite (run_delimited _ g) by reflexivity.
  destruct (delimited (js "\[") (js "\]") any_char s) as [n|] eqn:E2.
  { apply Hlen. eapply delimited_le; eassumption. }
  rewrite (run_delimited _ g) by reflexivity.
  destruct (delimited (js "\(") (js "\)") any_char s) as [n|] eqn:E3.
  { apply Hlen. eapply delimited_le; eassumption. }
  cbn [orElse run].
  assert (H4 : option_map fst
            (run (Seq (lit (js "$"))
                    (Seq (Star false (Chr not_dollar)) (lit (js "$"))))
               [] prev s
               (fun caps' _ s' =>
                  Some ((length s - length s')%nat,
                        caps' ++ [firstn (length s - length s') s])))
          = delimited (js "$") (js "$") not_dollar s).
  { rewrite (run_delimited _ g) by reflexivity.
    destruct (delimited (js "$") (js "$") not_dollar s) as [n|] eqn:E4;
      [|reflexivity].
    apply Hlen. eapply delimited_le; eassumption. }
  destruct prev as [c|]; [destruct (c =? ch_backslash)|]; auto.
Qed.
Lemma latex_regex_spec (prev : option char) (s : jsstring) (n : nat) :
  latex_regex prev s = Some n ->
  exists (d : Delimiter) (c : jsstring),
    match_shape d c /\
    n = (length (open_of d) + length c + length (close_of d))%nat /\
    s = (open_of d ++ c ++ close_of d) ++ skipn n s.
Proof.
  rewrite latex_regex_alternatives. unfold orElse. intros H.
  destruct (alt_dollars s) as [n1|] eqn:E1.
  { inversion H; subst n1. rewrite alt_dollars_delimited in E1.
    apply delimited_spec in E1 as (c & _ & Hn & Hs).
    exists DDollars, c. repeat split; [discriminate | assumption..]. }
  destruct (alt_bracket s) as [n2|] eqn:E2.
  { inversion H; subst n2. rewrite alt_bracket_delimited in E2.
    apply delimited_spec in E2 as (c & _ & Hn & Hs).
    exists DBracket, c. repeat split; [discriminate | assumption..]. }
  destruct (alt_paren s) as [n3|] eqn:E3.
  { inversion H; subst n3. rewrite alt_paren_delimited in E3.
    apply delimited_spec in E3 as (c & _ & Hn & Hs).
    exists DParen, c. repeat split; [discriminate | assumption..]. }
  assert (Hd : delimited (js "$") (js "$") not_dollar s = Some n).
  { rewrite alt_dollar_delimited in H. destruct prev as [p|]; [|assumption].
    destruct (p =? ch_backslash); [discriminate | assumption]. }
  apply delimited_spec in Hd as (c & Hc & Hn & Hs).
  exists DDollar, c. repeat split; [intros _; assumption | assumption..].
Qed.

Lemma delimited_form_length (d : Delimiter) (c : jsstring) :
  (2 <= length (open_of d) + length c + length (close_of d))%nat.
Proof. destruct d; simpl; lia. Qed.

(** [search] returns the leftmost position, at or after the start, where
    the matcher succeeds. *)
Lemma search_spec (m : option char -> jsstring -> option nat)
  (text : jsstring) :
  forall (rest : jsstring) (i idx n : nat),
    rest = skipn i text -> (i <= length text)%nat ->
    search m (char_before text i) rest i = Some (idx, n) ->
    (i <= idx <= length text)%nat /\
    m (char_before text idx) (skipn idx text) = Some n /\
    forall j, (i <= j < idx)%nat ->
      m (char_before text j) (skipn j text) = None.
Proof.
  induction rest as [|c rest IH]; intros i idx n Hr Hi H; cbn [search] in H.
  - destruct (m (char_before text i) []) eqn:E; [|discriminate].
    inversion H; subst. rewrite <- Hr.
    repeat split; [lia | lia | assumption | intros; lia].
  - destruct (m (char_before text i) (c :: rest)) eqn:E.
    + inversion H; subst. rewrite <- Hr.
      repeat split; [lia | lia | assumption | intros; lia].
    + symmetry in Hr. apply skipn_cons_inv in Hr as Hc.
      destruct Hc as [Hc Hr'].
      assert (Hlt : (i < length text)%nat)
        by (apply nth_error_Some; congruence).
      change (Some c) with (Some c) in H.
      assert (Hb : char_before text (S i) = Some c) by exact Hc.
      rewrite <- Hb in H.
      apply IH in H as (Hle & Hm & Hleft); [|now symmetry | lia].
      repeat split; [lia | lia | assumption | ].
      intros j Hj. destruct (Nat.eq_dec j i) as [->|Hne].
      * rewrite Hr. exact E.
      * apply Hleft. lia.
Qed.

Lemma search_none (m : option char -> jsstring -> option nat) :
  forall (rest : jsstring) (prev : option char) (i : nat),
    search m prev rest i = None -> m prev rest = None.
Proof.
  intros [|c rest] prev i H; cbn [search] in H;
    destruct (m prev _); congruence.
Qed.

(** What [exec] returns: the match starts at or after [lastIndex], it is
    the leftmost one, it is one of the four delimited forms, and the new
    [lastIndex] is its end. *)
Lemma regex_exec_spec (text : jsstring) (lastIndex index e : nat) :
  (lastIndex <= length text)%nat ->
  regex_exec text lastIndex = Some (index, e) ->
  (lastIndex <= index)%nat /\ (index + 2 <= e <= length text)%nat /\
  latex_regex (char_before text index) (skipn index text)
    = Some (e - index)%nat /\
  exists (d : Delimiter) (c : jsstring),
    match_shape d c /\
    firstn (e - index) (skipn index text) = open_of d ++ c ++ close_of d.
Proof.
  unfold regex_exec. intros Hl H.
  destruct (search latex_regex _ _ _) as [[i n]|] eqn:Es; [|discriminate].
  inversion H; subst i e; clear H.
  apply search_spec in Es as (Hle & Hm & _); [|reflexivity | assumption].
  replace (index + n - index)%nat with n by lia.
  destruct (latex_regex_spec _ _ _ Hm) as (d & c & Hsh & Hn & Hs).
  pose proof (delimited_form_length d c) as H2.
  assert (Hlen : (n <= length (skipn index text))%nat).
  { rewrite Hs, length_app, !length_app. lia. }
  rewrite length_skipn in Hlen.
  repeat split; [lia | lia | lia | assumption |].
  exists d, c. split; [assumption|].
  rewrite Hs. rewrite firstn_app.
  replace (n - length (open_of d ++ c ++ close_of d))%nat with 0%nat
    by (rewrite !length_app; lia).
  rewrite firstn_all2 by (rewrite !length_app; lia).
  simpl. apply app_nil_r.
Qed.

(** [strip_delimiters] gives back what stood between the delimiters.  The
    mode is the one of the alternative that matched, except for the match
    ["$$"] of the fourth alternative, which [startsWith('$$')] takes for
    display math. *)
Lemma strip_delimiters_spec (d : Delimiter) (c : jsstring) :
  match_shape d c ->
  fst (strip_delimiters (open_of d ++ c ++ close_of d)) = c /\
  (snd (strip_delimiters (open_of d ++ c ++ close_of d)) = display_of d \/
   d = DDollar /\ c = [] /\
   snd (strip_delimiters (open_of d ++ c ++ close_of d)) = true).
Proof.
  intros Hsh. destruct d.
  - unfold strip_delimiters. cbn [open_of close_of].
    rewrite startsWith_app. cbn [fst snd display_of].
    split; [|now left].
    apply (slice_strip (js "$$") c (js "$$")). discriminate.
  - unfold strip_delimiters. cbn [open_of close_of].
    change (startsWith (js "\[" ++ c ++ js "\]") (js "$$")) with false.
    rewrite startsWith_app. cbn [fst snd display_of].
    split; [|now left].
    apply (slice_strip (js "\[") c (js "\]")). discriminate.
  - unfold strip_delimiters. cbn [open_of close_of].
    change (startsWith (js "\(" ++ c ++ js "\)") (js "$$")) with false.
    change (startsWith (js "\(" ++ c ++ js "\)") (js "\[")) with false.
    rewrite startsWith_app. cbn [fst snd display_of].
    split; [|now left].
    apply (slice_strip (js "\(") c (js "\)")). discriminate.
  - specialize (Hsh eq_refl). destruct c as [|x c].
    + split; [reflexivity | right; auto].
    + cbn [forallb] in Hsh. apply andb_true_iff in Hsh as [Hx _].
      unfold not_dollar in Hx. apply negb_true_iff in Hx.
      unfold strip_delimiters. cbn [open_of close_of].
      assert (E1 : startsWith (js "$" ++ (x :: c) ++ js "$") (js "$$") = false).
      { change (js "$" ++ (x :: c) ++ js "$") with (36 :: x :: c ++ [36]).
        change (js "$$") with [36; 36]. cbn [startsWith].
        change ch_dollar with 36 in Hx. rewrite Hx. reflexivity. }
      rewrite E1.
      change (startsWith (js "$" ++ (x :: c) ++ js "$") (js "\[")) with false.
      change (startsWith (js "$" ++ (x :: c) ++ js "$") (js "\(")) with false.
      rewrite startsWith_app. cbn [fst snd display_of].
      split; [|now left].
      apply (slice_strip (js "$") (x :: c) (js "$")). discriminate.
Qed.

Lemma reassemble_app (segs1 segs2 : list TextSegment)
  (ds1 ds2 : list Delimiter) :
  length ds1 = length segs1 ->
  reassemble (segs1 ++ segs2) (ds1 ++ ds2)
  = reassemble segs1 ds1 ++ reassemble segs2 ds2.
Proof.
  revert ds1; induction segs1 as [|seg segs1 IH]; intros [|d ds1] H;
    simpl in *; try discriminate; [reflexivity|].
  rewrite <- app_assoc. f_equal. apply IH. lia.
Qed.

Lemma mode_agrees_text (c : jsstring) (d : Delimiter) :
  mode_agrees (mkSegment text_seg c None) d.
Proof. intros H. discriminate H. Qed.

(** The invariant of the loop: the segments pushed so far are the text up
    to [lastIndex]. *)
Lemma parse_loop_partition :
  forall (fuel : nat) (text : jsstring) (lastIndex : nat)
    (segments out : list TextSegment) (ds : list Delimiter),
    (lastIndex <= length text)%nat ->
    Forall2 mode_agrees segments ds ->
    reassemble segments ds = firstn lastIndex text ->
    parse_loop fuel text lastIndex segments = Some out ->
    exists ds' : list Delimiter,
      Forall2 mode_agrees out ds' /\ reassemble out ds' = text.
Proof.
  induction fuel as [|fuel IH]; intros text lastIndex segments out ds
    Hl Hm Hr H; cbn [parse_loop] in H; [discriminate|].
  destruct (regex_exec text lastIndex) as [[index e]|] eqn:Ex.
  - apply regex_exec_spec in Ex as (Hle & He & _ & d & c & Hsh & Hfull);
      [|assumption].
    rewrite (slice_nat text index e) in H by lia.
    rewrite Hfull in H.
    destruct (strip_delimiters_spec d c Hsh) as [Hc Hmode].
    destruct (strip_delimiters (open_of d ++ c ++ close_of d))
      as [content0 mode0] eqn:Est.
    cbn [fst snd] in Hc, Hmode. subst content0.
    set (new := mkSegment math_seg c (Some mode0)) in H.
    assert (Hnew : mode_agrees new d).
    { intros _. cbn. destruct Hmode as [->|(-> & -> & ->)]; auto. }
    assert (Hform : redelimit d new = firstn (e - index) (skipn index text)).
    { rewrite Hfull. reflexivity. }
    destruct (Nat.ltb_spec lastIndex index) as [Hlt|Hge].
    + rewrite (slice_nat text lastIndex index) in H by lia.
      rewrite <- app_assoc in H.
      apply (IH _ _ _ _ (ds ++ [DDollar; d])) in H; [assumption | lia | |].
      * apply Forall2_app; [assumption|].
        apply Forall2_cons; [apply mode_agrees_text|].
        apply Forall2_cons; [assumption | apply Forall2_nil].
      * rewrite reassemble_app by (symmetry; eapply Forall2_length; eauto).
        rewrite Hr. cbn [reassemble app]. rewrite Hform, app_nil_r.
        unfold redelimit. cbn [type content].
        rewrite app_assoc, firstn_skipn_split by lia.
        apply firstn_skipn_split. lia.
    + assert (index = lastIndex) by lia. subst index.
      apply (IH _ _ _ _ (ds ++ [d])) in H; [assumption | lia | |].
      * apply Forall2_app; [assumption|].
        apply Forall2_cons; [assumption | apply Forall2_nil].
      * rewrite reassemble_app by (symmetry; eapply Forall2_length; eauto).
        rewrite Hr. cbn [reassemble]. rewrite Hform, app_nil_r.
        apply firstn_skipn_split. lia.
  - inversion H; subst out; clear H.
    destruct (Nat.ltb_spec lastIndex (length text)) as [Hlt|Hge].
    + exists (ds ++ [DDollar]). split.
      * apply Forall2_app; [assumption|].
        apply Forall2_cons; [apply mode_agrees_text | apply Forall2_nil].
      * rewrite reassemble_app by (symmetry; eapply Forall2_length; eauto).
        rewrite Hr. cbn [reassemble]. unfold redelimit. cbn [type content].
        rewrite slice_from_nat by lia. rewrite app_nil_r.
        apply firstn_skipn.
    + exists ds. split; [assumption|].
      rewrite Hr. apply firstn_all2. lia.
Qed.

(** The loop ends: every match moves [lastIndex] forward. *)
Lemma parse_loop_total :
  forall (fuel : nat) (text : jsstring) (lastIndex : nat)
    (segments : list TextSegment),
    (lastIndex <= length text)%nat ->
    (length text - lastIndex < fuel)%nat ->
    exists out, parse_loop fuel text lastIndex segments = Some out.
Proof.
  induction fuel as [|fuel IH]; intros text lastIndex segments Hl Hf; [lia|].
  cbn [parse_loop].
  destruct (regex_exec text lastIndex) as [[index e]|] eqn:Ex.
  - apply regex_exec_spec in Ex as (Hle & He & _); [|assumption].
    destruct (strip_delimiters _) as [c m].
    apply IH; lia.
  - eauto.
Qed.

Lemma search_fails (m : option char -> jsstring -> option nat)
  (P : jsstring -> Prop) :
  (forall prev s, P s -> m prev s = None) ->
  (forall c s, P (c :: s) -> P s) ->
  forall (s : jsstring) (prev : option char) (i : nat),
    P s -> search m prev s i = None.
Proof.
  intros Hm Htl. induction s as [|c s IH]; intros prev i Hs; cbn [search];
    rewrite (Hm _ _ Hs); [reflexivity|].
  apply IH. eapply Htl; eassumption.
Qed.

Lemma latex_regex_nil (prev : option char) : latex_regex prev [] = None.
Proof.
  rewrite latex_regex_alternatives, alt_dollar_delimited.
  destruct prev as [c|]; [destruct (c =? ch_backslash)|]; reflexivity.
Qed.

Lemma regex_exec_beyond (text : jsstring) (lastIndex : nat) :
  (length text < lastIndex)%nat -> regex_exec text lastIndex = None.
Proof.
  intros H. unfold regex_exec. rewrite skipn_all2 by lia.
  cbn [search]. now rewrite latex_regex_nil.
Qed.

Lemma nth_error_skipn_cons (s : jsstring) (i : nat) (c : char) :
  nth_error s i = Some c -> skipn i s = c :: skipn (S i) s.
Proof.
  revert s; induction i as [|i IH]; intros [|x s] H; simpl in *;
    try discriminate.
  - now inversion H.
  - now apply IH.
Qed.

Lemma count_dollars_app (a b : jsstring) :
  count_dollars (a ++ b) = (count_dollars a + count_dollars b)%nat.
Proof. unfold count_dollars. now rewrite filter_app, length_app. Qed.

Lemma includes_prefix (p r : jsstring) : includes (p ++ r) p = true.
Proof.
  destruct p as [|x p]; [destruct r; reflexivity|].
  cbn [includes app]. change (x :: p ++ r) with ((x :: p) ++ r).
  now rewrite startsWith_app.
Qed.

Lemma no_delimiters_tail (c : char) (s : jsstring) :
  no_delimiters (c :: s) -> no_delimiters s.
Proof.
  intros (Hd & Hb & Hp). cbn [includes] in Hb, Hp.
  apply orb_false_iff in Hb as [_ Hb]. apply orb_false_iff in Hp as [_ Hp].
  repeat split; [|assumption..].
  change (c :: s) with ([c] ++ s) in Hd. rewrite count_dollars_app in Hd. lia.
Qed.

Lemma no_delimiters_no_match (prev : option char) (s : jsstring) :
  no_delimiters s -> latex_regex prev s = None.
Proof.
  intros (Hd & Hb & Hp).
  destruct (latex_regex prev s) as [n|] eqn:E; [exfalso|reflexivity].
  apply latex_regex_spec in E as (d & c & _ & _ & Hs).
  rewrite Hs in Hd, Hb, Hp. destruct d; cbn [open_of close_of] in *.
  - rewrite !count_dollars_app in Hd.
    change (count_dollars (js "$$")) with 2%nat in Hd. lia.
  - rewrite <- !app_assoc, includes_prefix in Hb. discriminate.
  - rewrite <- !app_assoc, includes_prefix in Hp. discriminate.
  - rewrite !count_dollars_app in Hd.
    change (count_dollars (js "$")) with 1%nat in Hd. lia.
Qed.

Lemma no_delimiters_exec (text : jsstring) :
  no_delimiters text -> regex_exec text 0 = None.
Proof.
  intros H. unfold regex_exec. cbn [skipn char_before].
  rewrite (search_fails latex_regex no_delimiters); trivial.
  - intros prev s Hs. now apply no_delimiters_no_match.
  - apply no_delimiters_tail.
Qed.

Lemma parseContent_no_match (text : jsstring) :
  regex_exec text 0 = None -> parseContent text = Some (literal text).
Proof.
  intros H. unfold parseContent. cbn [parse_loop]. rewrite H.
  destruct text as [|c text]; reflexivity.
Qed.

(** *** Texts whose delimiters have no partner *)







(** ** The segmenter *)

(** C1. For every input, [parseContent] returns segments which, each put
    back in its delimited form (a math segment between one of the four
    delimiter pairs, a text segment as it is) and concatenated in order,
    give the input again, code unit for code unit.  The delimiter pair of a
    math segment is the one of its mode, except for the empty [$]-pair. *)
Theorem parseContent_lossless_partition (text : jsstring) :
  exists (segs : list TextSegment) (ds : list Delimiter),
    parseContent text = Some segs /\
    Forall2 mode_agrees segs ds /\
    reassemble segs ds = text.
Proof.
  destruct (parse_loop_total (S (length text)) text 0 []) as [segs Hsegs];
    [lia | lia |].
  destruct (parse_loop_partition _ _ _ _ _ [] (Nat.le_0_l _)
              (Forall2_nil _) eq_refl Hsegs) as (ds & Hm & Hr).
  exists segs, ds. auto.
Qed.




(** C8, at the input ["$$"].  The first alternative does not match there
    (there is no closing [$$]), the fourth one matches the two characters
    as a [$]-pair with nothing in between, and [startsWith('$$')] then
    makes the segment display math.  The first alternative does win where
    both match, and the scenario of the specification comes out as
    written. *)
Theorem parseContent_empty_dollar_pair_display :
  alt_dollars (js "$$") = None /\
  alt_dollar None (js "$$") = Some 2%nat /\
  parseContent (js "$$") = Some [Math "" true] /\
  parseContent (js "a $$ b") = Some [Text "a "; Math "" true; Text " b"] /\
  alt_dollar None (js "$$x$$") = Some 2%nat /\
  latex_regex None (js "$$x$$") = Some 5%nat /\
  parseContent (js "\[a\]\(b\)$c$$$d$$")
    = Some [Math "a" true; Math "b" false; Math "c" false; Math "d" true] /\
  parseContent (js "Ans: $x^2$ and $$\int_0^1 x dx$$ done")
    = Some [Text "Ans: "; Math "x^2" false; Text " and ";
            Math "\int_0^1 x dx" true; Text " done"].
Proof. repeat split; vm_compute; reflexivity. Qed.

(** C9, at the input [\$$x$$].  The [$] behind the backslash opens a
    display span: the look-behind that keeps an escaped [$] from opening
    a span stands in the fourth alternative of the pattern only, and the
    first alternative matches at the escaped [$].  The backslash is left
    alone as text.  In a sentence with an escaped amount and a display
    formula the span runs from the escaped [$] to the opener of the
    formula.  The fourth alternative does refuse every [$] behind a
    backslash, and the scenario of the specification, where no [$$]
    occurs, comes out as written. *)
Theorem escaped_dollar_opens_display :
  let text := js "\$$x$$" in
  regex_exec text 0 = Some (1%nat, 6%nat) /\
  char_before text 1 = Some ch_backslash /\
  nth_error text 1 = Some ch_dollar /\
  alt_dollars (skipn 1 text) = Some 5%nat /\
  alt_dollar (char_before text 1) (skipn 1 text) = None /\
  parseContent text = Some [Text "\"; Math "x" true] /\
  parseContent (js "costs \$$x$ dollars. $$y$$")
    = Some [Text "costs \"; Math "x$ dollars. " true; Text "y";
            Math "" true] /\
  (forall s, alt_dollar (Some ch_backslash) s = None) /\
  parseContent (js "Price is \$5, cost \$3")
    = Some [Text "Price is \$5, cost \$3"].
Proof.
  repeat split; vm_compute; reflexivity.
Qed.

(** The look-behind of the fourth alternative.  A [$] immediately
    preceded by a backslash never opens an inline [$...$] span: a match
    that starts at such a [$] is a match of the first alternative
    [$$...$$].  What stands between the delimiters of a [$...$] match
    holds no [$]. *)
Lemma escaped_dollar_not_inline_opener :
  (forall s, alt_dollar (Some ch_backslash) s = None) /\
  (forall text lastIndex index e,
     regex_exec text lastIndex = Some (index, e) ->
     char_before text index = Some ch_backslash ->
     nth_error text index = Some ch_dollar ->
     alt_dollars (skipn index text) = Some (e - index)%nat) /\
  (forall prev s n,
     alt_dollar prev s = Some n ->
     exists c, firstn n s = js "$" ++ c ++ js "$" /\
               forallb not_dollar c = true) /\
  parseContent (js "Price is \$5, cost \$3")
    = Some [Text "Price is \$5, cost \$3"].
Proof.
  split; [intros s; rewrite alt_dollar_delimited; reflexivity|].
  split; [|split].
  - intros text lastIndex index e Hex Hprev Hd.
    destruct (Nat.le_gt_cases lastIndex (length text)) as [Hl|Hl];
      [|rewrite regex_exec_beyond in Hex by lia; discriminate].
    apply regex_exec_spec in Hex as (_ & _ & Hm & _); [|assumption].
    rewrite Hprev in Hm. apply nth_error_skipn_cons in Hd.
    rewrite Hd in *. rewrite latex_regex_alternatives in Hm.
    unfold orElse in Hm.
    destruct (alt_dollars _) as [n|]; [assumption|].
    exfalso. revert Hm.
    rewrite alt_bracket_delimited, alt_paren_delimited, alt_dollar_delimited.
    rewrite N.eqb_refl. discriminate.
  - intros prev s n H.
    assert (Hd : delimited (js "$") (js "$") not_dollar s = Some n).
    { rewrite alt_dollar_delimited in H. destruct prev as [p|]; [|assumption].
      destruct (p =? ch_backslash); [discriminate | assumption]. }
    apply delimited_spec in Hd as (c & Hc & Hn & Hs).
    exists c. split; [|assumption].
    rewrite Hs, firstn_app.
    replace (n - length (js "$" ++ c ++ js "$"))%nat with 0%nat
      by (rewrite !length_app; lia).
    rewrite firstn_all2 by (rewrite !length_app; lia).
    simpl. now rewrite app_nil_r.
  - vm_compute. reflexivity.
Qed.

Lemma escaped_dollar_not_inline_opener_witness :
  alt_dollars (skipn 1 (js "\$$x$$")) = Some (6 - 1)%nat.
Proof.
  apply (proj1 (proj2 escaped_dollar_not_inline_opener)
           (js "\$$x$$") 0%nat 1%nat 6%nat); vm_compute; reflexivity.
Defined.

(** ** Facts about the export *)





Lemma style_eqb_refl (style : ExportStyle) : style_eqb style style = true.
Proof. now destruct style. Qed.

Section ExportFacts.

Variable render : jsstring -> option bool -> completion jsstring.

Lemma fold_each_segment (rich : bool) (style : ExportStyle) :
  forall (segs : list TextSegment) (acc : jsstring),
    fold_left (each_segment render rich style) segs acc
    = acc ++ List.concat (map (contribution render rich style) segs).
Proof.
  induction segs as [|seg segs IH]; intros acc;
    cbn [fold_left map List.concat].
  - now rewrite app_nil_r.
  - rewrite IH. unfold each_segment. now rewrite <- app_assoc.
Qed.

(** [bodyContent] is the concatenation of what the segments contribute,
    each one by itself. *)
Lemma bodyContent_concat (segs : list TextSegment) (rich : bool)
  (style : ExportStyle) :
  bodyContent render segs rich style
  = List.concat (map (contribution render rich style) segs).
Proof. unfold bodyContent. apply fold_each_segment. Qed.

Lemma bodyContent_split (before after : list TextSegment)
  (seg : TextSegment) (rich : bool) (style : ExportStyle) :
  bodyContent render (before ++ seg :: after) rich style
  = bodyContent render before rich style
      ++ contribution render rich style seg
      ++ bodyContent render after rich style.
Proof.
  rewrite !bodyContent_concat, map_app, concat_app. reflexivity.
Qed.

Lemma contribution_not_flashcards (rich : bool) (style : ExportStyle)
  (seg : TextSegment) :
  style_eqb style flashcards = false ->
  contribution render rich style seg = segment_html render rich style seg.
Proof.
  intros H. unfold contribution, accumulate. rewrite H. reflexivity.
Qed.

End ExportFacts.

(** ** The serializer *)


(** C4. A math segment whose expression the renderer rejects, by throwing
    or by returning markup without a [<math>] element, becomes the
    placeholder [[LaTeX Error]] or [[Equation Error]]; the segments before
    and after it contribute what they contribute on their own.  The
    placeholder stands inline, in a card of its own only for display math
    under the flashcards style.  The throw of the renderer ends in the
    [catch]: the body is a string in every case. *)
Theorem malformed_math_degrades
  (render : jsstring -> option bool -> completion jsstring)
  (before after : list TextSegment) (seg : TextSegment)
  (rich : bool) (style : ExportStyle) :
  type seg = math_seg ->
  (render (content seg) (displayMode seg) = Throw \/
   exists mathML,
     render (content seg) (displayMode seg) = Return mathML /\
     match_first math_element mathML = None) ->
  (segment_html render rich style seg = js "[LaTeX Error]" \/
   segment_html render rich style seg = js "[Equation Error]") /\
  bodyContent render (before ++ seg :: after) rich style
  = bodyContent render before rich style
      ++ contribution render rich style seg
      ++ bodyContent render after rich style /\
  contribution render rich style seg
  = if style_eqb style flashcards && truthy (displayMode seg)
    then flashcard (segment_html render rich style seg)
    else segment_html render rich style seg.
Proof.
  intros Ht Hbad. split; [|split].
  - unfold segment_html, math_html. rewrite Ht.
    destruct Hbad as [E|(mathML & E & Em)]; rewrite E; cbn [bind try_catch].
    + now left.
    + rewrite Em. now right.
  - apply bodyContent_split.
  - unfold contribution, accumulate, is_text, is_math. rewrite Ht.
    rewrite andb_false_r, andb_true_r. cbn [andb].
    destruct (style_eqb style flashcards && truthy (displayMode seg));
      reflexivity.
Qed.

Lemma malformed_math_degrades_witness :
  bodyContent (fun _ _ => Throw) ([Text "a"] ++ Math "\frac{1}{" false
                                    :: [Text "b"]) false standard
  = text_run (js "a") ++ js "[LaTeX Error]" ++ text_run (js "b").
Proof.
  pose proof (malformed_math_degrades (fun _ _ => Throw) [Text "a"]
                [Text "b"] (Math "\frac{1}{" false) false standard
                eq_refl (or_introl eq_refl)) as (_ & H & _).
  rewrite H. vm_compute. reflexivity.
Defined.

(** C5, at the segment ["Câu 1: x"] under [minimal] in plain-text mode.
    The style sheet of the two plain styles has the neutral heading
    colours, but the span of the section marker keeps its accent colour
    #0284c7 in the exported document. *)
Theorem minimal_highlight_keeps_colour :
  let html := fullHtml (fun _ _ => Throw) [Text "Câu 1: x"] false minimal in
  isPlain minimal = true /\
  headingColor1 minimal = js "#000000" /\
  headingColor2 minimal = js "#000000" /\
  includes html (highlight "#0284c7" (js "Câu 1:")) = true /\
  includes html (highlight "#000000" (js "Câu 1:")) = false /\
  bodyContent (fun _ _ => Throw) [Text "Câu 1: x"] false minimal
  = text_run (highlight "#0284c7" (js "Câu 1:") ++ js " x").
Proof. repeat split; vm_compute; reflexivity. Qed.

(** Under [minimal] and [draft] the body is the one of the [standard]
    style: the highlight spans are inserted as everywhere, with their
    fixed colours.  What these two styles make neutral are the colours of
    the headings and the background of the table header. *)
Lemma plain_styles_body
  (render : jsstring -> option bool -> completion jsstring)
  (style : ExportStyle) (segs : list TextSegment) (rich : bool) :
  isPlain style = true ->
  bodyContent render segs rich style
    = bodyContent render segs rich standard /\
  headingColor1 style = js "#000000" /\
  headingColor2 style = js "#000000" /\
  tableHeaderBg style = js "#ffffff".
Proof.
  intros Hp.
  assert (Hs : style = minimal \/ style = draft)
    by (destruct style; try discriminate; auto).
  unfold headingColor1, headingColor2, tableHeaderBg. rewrite Hp.
  repeat split.
  rewrite !bodyContent_concat. f_equal.
  apply map_ext. intros seg.
  destruct Hs as [-> | ->]; reflexivity.
Qed.

(** C6 as stated fails: a rich-text segment with a section keyword gets
    no answer lines under [worksheet], and display math that does not
    render, be it that the renderer throws or that it returns an error
    span without a [<math>] element, gets no spacer line. *)
Lemma worksheet_lines_need_plain_text :
  contribution (fun _ _ => Throw) true worksheet (Text "Câu 1") = js "Câu 1" /\
  includes (bodyContent (fun _ _ => Throw) [Text "Câu 1"] true worksheet)
    dotted_line = false /\
  contribution (fun _ _ => Throw) false worksheet (Math "\frac{1}{" true)
    = js "[LaTeX Error]" /\
  contribution
    (fun c _ => Return (js "<span class=katex-error>" ++ c ++ js "</span>"))
    false worksheet (Math "\frac{1}{" true)
  = js "[Equation Error]".
Proof. repeat split; vm_compute; reflexivity. Qed.

(** C6, amended.  Under [worksheet] and in plain-text mode a text segment
    whose content contains "Câu" or "Bài" or is longer than 50 code units
    is followed at once by the block of three dotted lines, and no other
    text segment is; in rich-text mode a text segment is passed on as it
    is, without lines.  A display-mode math segment that renders to a
    [<math>] element is followed by one spacer line; a math segment that
    does not render is the bare placeholder, without a spacer. *)
Theorem worksheet_answer_lines
  (render : jsstring -> option bool -> completion jsstring)
  (before : list TextSegment) (seg : TextSegment) (rich : bool) :
  answer_lines
  = line 4 (js "<div style=" ++ dq
            ++ js "margin-top: 10pt; margin-bottom: 20pt; color: #999;"
            ++ dq ++ js ">")
      ++ line 8 dotted_line ++ line 8 dotted_line ++ line 8 dotted_line
      ++ line 4 (js "</div>") ++ line 2 [] /\
  bodyContent render (before ++ [seg]) rich worksheet
  = bodyContent render before rich worksheet
      ++ contribution render rich worksheet seg /\
  (type seg = text_seg ->
   contribution render false worksheet seg
   = text_html false seg
       ++ (if qualifies (content seg) then answer_lines else [])) /\
  (type seg = text_seg ->
   contribution render true worksheet seg = content seg) /\
  (type seg = math_seg -> truthy (displayMode seg) = true ->
   forall mathML element,
     render (content seg) (displayMode seg) = Return mathML ->
     match_first math_element mathML = Some element ->
     contribution render rich worksheet seg
     = equation_paragraph (remove_first tex_annotation element)
         ++ spacer_line) /\
  (type seg = math_seg ->
   render (content seg) (displayMode seg) = Throw ->
   contribution render rich worksheet seg = js "[LaTeX Error]") /\
  (type seg = math_seg ->
   forall mathML,
     render (content seg) (displayMode seg) = Return mathML ->
     match_first math_element mathML = None ->
     contribution render rich worksheet seg = js "[Equation Error]").
Proof.
  split; [reflexivity|]. split; [|split; [|split; [|split; [|split]]]].
  - rewrite bodyContent_split.
    rewrite (bodyContent_concat render []). cbn [map List.concat].
    now rewrite app_nil_r.
  - intros Ht. rewrite contribution_not_flashcards by reflexivity.
    unfold segment_html, worksheet_lines. rewrite Ht. cbn [style_eqb andb negb].
    reflexivity.
  - intros Ht. rewrite contribution_not_flashcards by reflexivity.
    unfold segment_html, worksheet_lines, text_html. rewrite Ht.
    cbn [style_eqb andb negb]. apply app_nil_r.
  - intros Ht Hd mathML element Er Em.
    rewrite contribution_not_flashcards by reflexivity.
    unfold segment_html, math_html. rewrite Ht, Er. cbn [bind try_catch].
    rewrite Em, Hd. cbn [style_eqb].
    unfold equation_paragraph, spacer_line. rewrite <- !app_assoc.
    reflexivity.
  - intros Ht Er. rewrite contribution_not_flashcards by reflexivity.
    unfold segment_html, math_html. rewrite Ht, Er. reflexivity.
  - intros Ht mathML Er Em.
    rewrite contribution_not_flashcards by reflexivity.
    unfold segment_html, math_html. rewrite Ht, Er. cbn [bind try_catch].
    now rewrite Em.
Qed.

Lemma worksheet_answer_lines_witness :
  contribution (fun _ _ => Throw) false worksheet (Text "Bài 2")
  = text_html false (Text "Bài 2")
      ++ (if qualifies (content (Text "Bài 2")) then answer_lines else []).
Proof.
  apply (proj1 (proj2 (proj2
           (worksheet_answer_lines (fun _ _ => Throw) [] (Text "Bài 2")
              false)))).
  reflexivity.
Defined.




(** C10. Whatever the segments, the rich-text flag and the style, the
    document is the head with the opened body wrapper, then the content
    of the user, then the fixed footer: a rule, the centred paragraph with
    the credit of the author, and the closing tags.  This document is
    what [asBlob] receives. *)
Theorem export_ends_with_footer
  (render : jsstring -> option bool -> completion jsstring)
  (Blob : Type) (asBlob : jsstring -> BlobOptions -> Blob)
  (segs : list TextSegment) (rich : bool) (style : ExportStyle) :
  exists (head : jsstring) (options : BlobOptions),
    let wrapper :=
      line 4 (js "<body>")
        ++ line 8 (js "<div class=" ++ dq ++ js "Section1" ++ dq ++ js ">")
        ++ line 12 [] in
    fullHtml render segs rich style
    = (head ++ wrapper) ++ bodyContent render segs rich style ++ footer /\
    generateWordCompatibleFile render Blob asBlob segs rich style
    = asBlob (fullHtml render segs rich style) options /\
    footer
    = line 12 [] ++ line 12 (js "<br/>") ++ line 12 (js "<hr/>")
        ++ line 12 (js "<p style=" ++ dq
             ++ js "text-align: center; color: #2E74B5; font-size: 10pt; font-weight: bold; margin-top: 20pt;"
             ++ dq ++ js ">")
        ++ line 16 (js "Thầy Vũ Tiến Lực - Trường THPT Nguyễn Hữu Cảnh")
        ++ line 12 (js "</p>") ++ line 8 (js "</div>")
        ++ line 4 (js "</body>") ++ line 4 (js "</html>") ++ line 2 [].
Proof.
  set (h := html_head (style_layout style) style).
  exists (firstn (length h - 55) h). eexists.
  cbv zeta. split; [|split; [reflexivity|reflexivity]].
  unfold fullHtml. fold h. change html_foot with footer.
  f_equal. subst h. destruct style; vm_compute; reflexivity.
Qed.

(** ** More about the segmenter *)

Lemma includes_iff (s p : jsstring) :
  includes s p = true <-> exists a b, s = a ++ p ++ b.
Proof.
  split.
  - induction s as [|c s IH]; cbn [includes]; intros H.
    + rewrite orb_false_r in H. apply startsWith_true in H.
      exists [], (skipn (length p) []). exact H.
    + apply orb_true_iff in H as [H|H].
      * apply startsWith_true in H. exists [], (skipn (length p) (c :: s)).
        exact H.
      * destruct (IH H) as (a & b & ->). exists (c :: a), b. reflexivity.
  - intros (a & b & ->). induction a as [|c a IH].
    + exact (includes_prefix p b).
    + cbn [includes app]. rewrite IH. apply orb_true_r.
Qed.

Lemma includes_app_false (s p x y : jsstring) :
  includes (x ++ s ++ y) p = false -> includes s p = false.
Proof.
  intros H. destruct (includes s p) eqn:E; [|reflexivity].
  apply includes_iff in E as (a & b & ->).
  rewrite <- H. symmetry. apply includes_iff.
  exists (x ++ a), (b ++ y). now rewrite <- !app_assoc.
Qed.

Lemma startsWith_app_long (x p rest : jsstring) :
  (length p <= length x)%nat ->
  startsWith (x ++ rest) p = startsWith x p.
Proof.
  revert x; induction p as [|c p IH]; intros x H; [reflexivity|].
  destruct x as [|y x]; [cbn in H; lia|].
  cbn [app startsWith]. rewrite IH by (cbn in H; lia). reflexivity.
Qed.

(** The lazy star stops at the first place where the closing string
    follows. *)
Lemma lazy_until_first (close : jsstring) (allowed : char -> bool) :
  forall (s : jsstring) (k j : nat),
    lazy_until close allowed s = Some k -> (j < k)%nat ->
    startsWith (skipn j s) close = false.
Proof.
  induction s as [|c s IH]; intros k j H Hj; cbn [lazy_until] in H.
  - destruct (startsWith [] close); [|discriminate].
    inversion H; subst. lia.
  - destruct (startsWith (c :: s) close) eqn:E.
    + inversion H; subst. lia.
    + destruct (allowed c); [|discriminate].
      destruct (lazy_until close allowed s) as [k'|] eqn:El; [|discriminate].
      inversion H; subst. destruct j as [|j]; [exact E|].
      cbn [skipn]. eapply IH; [reflexivity | lia].
Qed.

Lemma delimited_shortest (open close : jsstring) (allowed : char -> bool)
  (s : jsstring) (n : nat) :
  close <> [] ->
  delimited open close allowed s = Some n ->
  exists c : jsstring,
    forallb allowed c = true /\
    includes c close = false /\
    n = (length open + length c + length close)%nat /\
    s = (open ++ c ++ close) ++ skipn n s.
Proof.
  intros Hne H. destruct (delimited_spec _ _ _ _ _ H) as (c & Ha & Hn & Hs).
  exists c. repeat split; try assumption.
  destruct (includes c close) eqn:E; [exfalso|reflexivity].
  apply includes_iff in E as (a & b & Hc).
  unfold delimited in H.
  destruct (startsWith s open); [|discriminate].
  destruct (lazy_until close allowed (skipn (length open) s)) as [k|] eqn:El;
    [|discriminate].
  inversion H; subst n; clear H.
  assert (k = length c) by lia. subst k.
  assert (Hr : skipn (length open) s = c ++ close ++ skipn
                 (length open + length c + length close) s).
  { rewrite Hs at 1. rewrite <- !app_assoc, skipn_app, skipn_all, Nat.sub_diag.
    reflexivity. }
  assert (Hlen : (0 < length close)%nat)
    by (destruct close; [congruence | cbn; lia]).
  pose proof (lazy_until_first _ _ _ _ (length a) El) as Hf.
  rewrite Hr, Hc in Hf. rewrite <- !app_assoc in Hf.
  rewrite skipn_app, skipn_all, Nat.sub_diag in Hf. cbn [skipn app] in Hf.
  rewrite startsWith_app in Hf.
  assert (true = false); [|discriminate].
  apply Hf. rewrite !length_app. lia.
Qed.

Lemma forallb_not_dollar_includes (c : jsstring) :
  forallb not_dollar c = true -> includes c (js "$") = false.
Proof.
  intros H. destruct (includes c (js "$")) eqn:E; [exfalso|reflexivity].
  apply includes_iff in E as (a & b & ->).
  rewrite forallb_app in H. apply andb_true_iff in H as [_ H].
  discriminate H.
Qed.

(** A match of the pattern, with the shortest content. *)
Lemma latex_regex_shortest (prev : option char) (s : jsstring) (n : nat) :
  latex_regex prev s = Some n ->
  exists (d : Delimiter) (c : jsstring),
    match_shape d c /\
    includes c (close_of d) = false /\
    n = (length (open_of d) + length c + length (close_of d))%nat /\
    s = (open_of d ++ c ++ close_of d) ++ skipn n s.
Proof.
  rewrite latex_regex_alternatives. unfold orElse. intros H.
  destruct (alt_dollars s) as [n1|] eqn:E1.
  { inversion H; subst n1. rewrite alt_dollars_delimited in E1.
    apply delimited_shortest in E1 as (c & _ & Hi & Hn & Hs); [|discriminate].
    exists DDollars, c. repeat split; [discriminate | assumption..]. }
  destruct (alt_bracket s) as [n2|] eqn:E2.
  { inversion H; subst n2. rewrite alt_bracket_delimited in E2.
    apply delimited_shortest in E2 as (c & _ & Hi & Hn & Hs); [|discriminate].
    exists DBracket, c. repeat split; [discriminate | assumption..]. }
  destruct (alt_paren s) as [n3|] eqn:E3.
  { inversion H; subst n3. rewrite alt_paren_delimited in E3.
    apply delimited_shortest in E3 as (c & _ & Hi & Hn & Hs); [|discriminate].
    exists DParen, c. repeat split; [discriminate | assumption..]. }
  assert (Hd : delimited (js "$") (js "$") not_dollar s = Some n).
  { rewrite alt_dollar_delimited in H. destruct prev as [p|]; [|assumption].
    destruct (p =? ch_backslash); [discriminate | assumption]. }
  apply delimited_shortest in Hd as (c & Hc & Hi & Hn & Hs); [|discriminate].
  exists DDollar, c. repeat split; [intros _; assumption | assumption..].
Qed.

Lemma regex_exec_shortest (text : jsstring) (lastIndex index e : nat) :
  (lastIndex <= length text)%nat ->
  regex_exec text lastIndex = Some (index, e) ->
  exists (d : Delimiter) (c : jsstring),
    match_shape d c /\ includes c (close_of d) = false /\
    firstn (e - index) (skipn index text) = open_of d ++ c ++ close_of d.
Proof.
  intros Hl H.
  destruct (regex_exec_spec _ _ _ _ Hl H) as (Hle & He & Hm & _).
  destruct (latex_regex_shortest _ _ _ Hm) as (d & c & Hsh & Hi & Hn & Hs).
  exists d, c. repeat split; try assumption.
  rewrite Hs, firstn_app.
  replace (e - index - length (open_of d ++ c ++ close_of d))%nat with 0%nat
    by (rewrite !length_app; lia).
  rewrite firstn_all2 by (rewrite !length_app; lia).
  simpl. apply app_nil_r.
Qed.

Lemma alternating_snoc (segs : list TextSegment) (seg : TextSegment) :
  alternating segs = true ->
  is_math seg || last_is_math segs = true ->
  alternating (segs ++ [seg]) = true.
Proof.
  unfold last_is_math.
  induction segs as [|a segs IH]; intros Ha Hl; [reflexivity|].
  destruct segs as [|b segs].
  - cbn [app alternating last] in *. rewrite andb_true_r.
    apply negb_true_iff, andb_false_iff.
    unfold is_math, is_text in *.
    destruct (type a), (type seg); cbn in *; auto; discriminate.
  - cbn [alternating] in Ha. apply andb_true_iff in Ha as [Hab Ha].
    change ((a :: b :: segs) ++ [seg]) with (a :: b :: (segs ++ [seg])).
    cbn [alternating]. rewrite Hab. cbn [andb].
    change (b :: (segs ++ [seg])) with ((b :: segs) ++ [seg]).
    apply IH; assumption.
Qed.

Lemma last_is_math_snoc (segs : list TextSegment) (seg : TextSegment) :
  last_is_math (segs ++ [seg]) = is_math seg.
Proof. unfold last_is_math. now rewrite last_last. Qed.

(** The invariant of the loop, with what each pushed segment is. *)
Lemma parse_loop_well_formed :
  forall (fuel : nat) (text : jsstring) (lastIndex : nat)
    (segments out : list TextSegment) (ds : list Delimiter),
    (lastIndex <= length text)%nat ->
    Forall2 segment_from segments ds ->
    alternating segments = true ->
    last_is_math segments = true ->
    reassemble segments ds = firstn lastIndex text ->
    parse_loop fuel text lastIndex segments = Some out ->
    exists ds' : list Delimiter,
      Forall2 segment_from out ds' /\ alternating out = true /\
      reassemble out ds' = text.
Proof.
  induction fuel as [|fuel IH]; intros text lastIndex segments out ds
    Hl Hm Ha Hlast Hr H; cbn [parse_loop] in H; [discriminate|].
  destruct (regex_exec text lastIndex) as [[index e]|] eqn:Ex.
  - destruct (regex_exec_shortest _ _ _ _ Hl Ex) as (d & c & Hsh & Hi & Hfull).
    apply regex_exec_spec in Ex as (Hle & He & _); [|assumption].
    rewrite (slice_nat text index e) in H by lia.
    rewrite Hfull in H.
    destruct (strip_delimiters_spec d c Hsh) as [Hc _].
    destruct (strip_delimiters (open_of d ++ c ++ close_of d))
      as [content0 mode0] eqn:Est.
    cbn [fst] in Hc. subst content0.
    set (new := mkSegment math_seg c (Some mode0)) in H.
    assert (Hnew : segment_from new d).
    { unfold segment_from. cbn. split; [eauto | assumption]. }
    assert (Hform : redelimit d new = firstn (e - index) (skipn index text)).
    { rewrite Hfull. reflexivity. }
    destruct (Nat.ltb_spec lastIndex index) as [Hlt|Hge].
    + rewrite (slice_nat text lastIndex index) in H by lia.
      set (txt := mkSegment text_seg
                    (firstn (index - lastIndex) (skipn lastIndex text)) None)
        in H.
      apply (IH _ _ _ _ ((ds ++ [DDollar]) ++ [d])) in H;
        [assumption | lia | | | |].
      * apply Forall2_app; [apply Forall2_app; [assumption|]|].
        -- apply Forall2_cons; [|apply Forall2_nil].
           unfold segment_from. cbn. split; [|reflexivity].
           intros E. apply (f_equal (@length char)) in E.
           rewrite length_firstn, length_skipn in E. cbn in E. lia.
        -- apply Forall2_cons; [assumption | apply Forall2_nil].
      * apply alternating_snoc; [|reflexivity].
        apply alternating_snoc; [assumption|]. rewrite Hlast.
        apply orb_true_r.
      * apply last_is_math_snoc.
      * assert (Hlen : length (ds ++ [DDollar]) = length (segments ++ [txt])).
        { rewrite !length_app. cbn.
          now rewrite (Forall2_length Hm). }
        rewrite reassemble_app by assumption.
        rewrite reassemble_app by (symmetry; eapply Forall2_length; eauto).
        rewrite Hr. cbn [reassemble]. rewrite Hform, !app_nil_r.
        unfold redelimit. cbn [type content txt].
        rewrite firstn_skipn_split by lia.
        apply firstn_skipn_split. lia.
    + assert (index = lastIndex) by lia. subst index.
      apply (IH _ _ _ _ (ds ++ [d])) in H; [assumption | lia | | | |].
      * apply Forall2_app; [assumption|].
        apply Forall2_cons; [assumption | apply Forall2_nil].
      * apply alternating_snoc; [assumption | reflexivity].
      * apply last_is_math_snoc.
      * rewrite reassemble_app by (symmetry; eapply Forall2_length; eauto).
        rewrite Hr. cbn [reassemble]. rewrite Hform, app_nil_r.
        apply firstn_skipn_split. lia.
  - inversion H; subst out; clear H.
    destruct (Nat.ltb_spec lastIndex (length text)) as [Hlt|Hge].
    + exists (ds ++ [DDollar]). split; [|split].
      * apply Forall2_app; [assumption|].
        apply Forall2_cons; [|apply Forall2_nil].
        unfold segment_from. cbn. split; [|reflexivity].
        rewrite slice_from_nat by lia.
        intros E. apply (f_equal (@length char)) in E.
        rewrite length_skipn in E. cbn in E. lia.
      * apply alternating_snoc; [assumption|]. rewrite Hlast.
        apply orb_true_r.
      * rewrite reassemble_app by (symmetry; eapply Forall2_length; eauto).
        rewrite Hr. cbn [reassemble]. unfold redelimit. cbn [type content].
        rewrite slice_from_nat by lia. rewrite app_nil_r.
        apply firstn_skipn.
    + exists ds. split; [assumption|]. split; [assumption|].
      rewrite Hr. apply firstn_all2. lia.
Qed.

Lemma parseContent_well_formed (text : jsstring) :
  exists (segs : list TextSegment) (ds : list Delimiter),
    parseContent text = Some segs /\
    Forall2 segment_from segs ds /\ alternating segs = true /\
    reassemble segs ds = text.
Proof.
  destruct (parse_loop_total (S (length text)) text 0 []) as [segs Hsegs];
    [lia | lia |].
  destruct (parse_loop_well_formed _ _ _ _ _ [] (Nat.le_0_l _)
              (Forall2_nil _) eq_refl eq_refl eq_refl Hsegs)
    as (ds & Hf & Ha & Hr).
  exists segs, ds. auto.
Qed.

(** X1. The segments of [parseContent] are well formed: a text segment is
    never empty and carries no display mode, a math segment always carries
    one, and no two text segments stand next to each other. *)
Theorem parseContent_segments_well_formed (text : jsstring) :
  exists segs : list TextSegment,
    parseContent text = Some segs /\
    Forall (fun seg =>
              match type seg with
              | text_seg => content seg <> [] /\ displayMode seg = None
              | math_seg => exists b, displayMode seg = Some b
              end) segs /\
    alternating segs = true.
Proof.
  destruct (parseContent_well_formed text) as (segs & ds & Hp & Hf & Ha & _).
  exists segs. split; [assumption|]. split; [|assumption].
  clear -Hf. induction Hf as [|seg d segs ds H _ IH]; constructor; auto.
  unfold segment_from in H. destruct (type seg); tauto.
Qed.

(** *** The first closing delimiter *)







Lemma reassemble_length (segs : list TextSegment) :
  forall ds : list Delimiter,
    length ds = length segs ->
    (content_length segs + 2 * count_math segs
     <= length (reassemble segs ds))%nat.
Proof.
  induction segs as [|seg segs IH]; intros [|d ds] H; cbn in H;
    try discriminate; [cbn; lia|].
  specialize (IH ds ltac:(lia)).
  change (content_length (seg :: segs))
    with (length (content seg) + content_length segs)%nat.
  assert (Hc : count_math (seg :: segs)
               = ((if is_math seg then 1 else 0) + count_math segs)%nat).
  { unfold count_math. cbn [filter]. destruct (is_math seg); reflexivity. }
  rewrite Hc. cbn [reassemble]. rewrite length_app.
  unfold redelimit, is_math. destruct (type seg).
  - lia.
  - rewrite !length_app.
    assert (2 <= length (open_of d) + length (close_of d))%nat
      by (destruct d; cbn; lia).
    lia.
Qed.

(** X3. The contents of the segments, with two characters for the
    delimiters of each math segment, are never longer than the input. *)
Theorem parseContent_length_bound (text : jsstring) :
  exists segs : list TextSegment,
    parseContent text = Some segs /\
    (content_length segs + 2 * count_math segs <= length text)%nat.
Proof.
  destruct (parseContent_well_formed text) as (segs & ds & Hp & Hf & _ & Hr).
  exists segs. split; [assumption|].
  pose proof (reassemble_length segs ds) as Hlen.
  rewrite Hr in Hlen. apply Hlen.
  symmetry. eapply Forall2_length; eassumption.
Qed.

(** *** One math region between plain text *)

Lemma latex_regex_plain_head (prev : option char) (c : char) (s : jsstring) :
  negb (c =? ch_dollar) && negb (c =? ch_backslash) = true ->
  latex_regex prev (c :: s) = None.
Proof.
  intros H. apply andb_true_iff in H as [Hd Hb].
  apply negb_true_iff in Hd, Hb.
  change ch_dollar with 36 in Hd. change ch_backslash with 92 in Hb.
  rewrite latex_regex_alternatives, alt_dollars_delimited,
    alt_bracket_delimited, alt_paren_delimited, alt_dollar_delimited.
  unfold delimited.
  change (js "$$") with [36; 36]. change (js "\[") with [92; 91].
  change (js "\(") with [92; 40]. change (js "$") with [36].
  cbn [startsWith]. rewrite Hd, Hb. cbn [andb orElse].
  destruct prev as [p|]; [destruct (p =? ch_backslash)|]; reflexivity.
Qed.

Lemma latex_regex_plain (prev : option char) (s : jsstring) :
  plain s = true -> latex_regex prev s = None.
Proof.
  destruct s as [|c s]; intros H; [apply latex_regex_nil|].
  cbn [plain forallb] in H. apply andb_true_iff in H as [H _].
  now apply latex_regex_plain_head.
Qed.

Lemma search_plain (s : jsstring) (prev : option char) (i : nat) :
  plain s = true -> search latex_regex prev s i = None.
Proof.
  intros H. apply (search_fails latex_regex (fun s => plain s = true));
    [| |assumption].
  - intros p s' Hs. now apply latex_regex_plain.
  - intros c s' Hs. cbn [plain forallb] in Hs.
    apply andb_true_iff in Hs as [_ Hs]. exact Hs.
Qed.

Lemma search_plain_prefix (rest : jsstring) :
  forall (pre : jsstring) (prev : option char) (i : nat),
    plain pre = true -> rest <> [] ->
    search latex_regex prev (pre ++ rest) i
    = search latex_regex (prev_after prev pre) rest (i + length pre).
Proof.
  induction pre as [|c pre IH]; intros prev i Hp Hr.
  - cbn. now rewrite Nat.add_0_r.
  - cbn [plain forallb] in Hp. apply andb_true_iff in Hp as [Hc Hp].
    cbn [app search]. rewrite (latex_regex_plain_head _ _ _ Hc).
    rewrite IH by assumption. cbn [prev_after fold_left length].
    f_equal. lia.
Qed.

Lemma prev_after_plain (pre : jsstring) :
  forall prev : option char,
    not_escaped prev = true -> plain pre = true ->
    not_escaped (prev_after prev pre) = true.
Proof.
  induction pre as [|c pre IH]; intros prev Hq Hp; [exact Hq|].
  cbn [plain forallb] in Hp. apply andb_true_iff in Hp as [Hc Hp].
  cbn [prev_after fold_left]. apply IH; [|assumption].
  apply andb_true_iff in Hc as [_ Hc]. exact Hc.
Qed.

Lemma lazy_until_append (close : jsstring) (allowed : char -> bool)
  (post : jsstring) :
  forall c : jsstring,
    lazy_until close allowed (c ++ close) = Some (length c) ->
    lazy_until close allowed (c ++ close ++ post) = Some (length c).
Proof.
  induction c as [|x c IH]; intros H.
  - cbn [app length]. destruct (close ++ post) eqn:E;
      cbn [lazy_until]; rewrite <- ?E, startsWith_app; reflexivity.
  - cbn [app lazy_until length] in *.
    assert (Hl : (length close <= length (x :: c ++ close))%nat)
      by (cbn; rewrite length_app; lia).
    change (x :: c ++ close ++ post) with ((x :: c) ++ close ++ post).
    rewrite app_assoc, startsWith_app_long by exact Hl.
    change ((x :: c) ++ close) with (x :: c ++ close).
    destruct (startsWith (x :: c ++ close) close); [discriminate|].
    destruct (allowed x); [|discriminate].
    destruct (lazy_until close allowed (c ++ close)) as [k|] eqn:El;
      [|discriminate].
    inversion H; subst k. now rewrite IH.
Qed.

(** Where [c] can stand between the delimiters [d], the pattern matches
    the delimited form and nothing more. *)
Lemma latex_regex_delimited_form (d : Delimiter) (c post : jsstring)
  (prev : option char) :
  spans d c = true -> not_escaped prev = true ->
  latex_regex prev (open_of d ++ c ++ close_of d ++ post)
  = Some (length (open_of d) + length c + length (close_of d))%nat.
Proof.
  unfold spans. intros H Hprev. apply andb_true_iff in H as [Hl Hne].
  destruct (lazy_until (close_of d) (allowed_of d) (c ++ close_of d))
    as [k|] eqn:El; [|discriminate].
  apply Nat.eqb_eq in Hl. subst k.
  apply (lazy_until_append _ _ post) in El.
  rewrite latex_regex_alternatives, alt_dollars_delimited,
    alt_bracket_delimited, alt_paren_delimited, alt_dollar_delimited.
  assert (Hmatch : delimited (open_of d) (close_of d) (allowed_of d)
                     (open_of d ++ c ++ close_of d ++ post)
                   = Some (length (open_of d) + length c
                           + length (close_of d))%nat).
  { unfold delimited. rewrite startsWith_app.
    rewrite skipn_app, skipn_all, Nat.sub_diag. cbn [skipn app].
    now rewrite El. }
  destruct d; cbn [open_of close_of allowed_of] in *.
  - now rewrite Hmatch.
  - rewrite Hmatch. reflexivity.
  - rewrite Hmatch. reflexivity.
  - destruct c as [|x c]; [discriminate|].
    assert (Hx : (x =? 36) = false).
    { cbn [app lazy_until] in El. change (js "$") with [36] in El.
      cbn [startsWith app] in El.
      destruct (x =? 36); [discriminate | reflexivity]. }
    unfold delimited at 1 2 3.
    change (js "$$") with [36; 36]. change (js "\[") with [92; 91].
    change (js "\(") with [92; 40]. change (js "$") with [36] in *.
    cbn [app startsWith]. rewrite Hx. cbn [andb orElse].
    unfold not_escaped in Hprev. destruct prev as [p|]; [|exact Hmatch].
    apply negb_true_iff in Hprev. rewrite Hprev. exact Hmatch.
Qed.

Lemma search_here (m : option char -> jsstring -> option nat)
  (prev : option char) (s : jsstring) (i n : nat) :
  m prev s = Some n -> search m prev s i = Some (i, n).
Proof. intros H. destruct s; cbn [search]; now rewrite H. Qed.

Lemma strip_delimiters_spans (d : Delimiter) (c : jsstring) :
  spans d c = true ->
  strip_delimiters (open_of d ++ c ++ close_of d) = (c, display_of d).
Proof.
  intros H. unfold spans in H. apply andb_true_iff in H as [Hl Hne].
  assert (Hsh : match_shape d c).
  { intros ->. cbn [close_of allowed_of] in Hl.
    destruct (lazy_until (js "$") not_dollar (c ++ js "$")) as [k|] eqn:El;
      [|discriminate].
    apply Nat.eqb_eq in Hl. subst k.
    apply lazy_until_spec in El as (Ha & _).
    rewrite firstn_app, firstn_all, Nat.sub_diag in Ha.
    cbn [firstn] in Ha. now rewrite app_nil_r in Ha. }
  destruct (strip_delimiters_spec d c Hsh) as [Hc Hm].
  destruct (strip_delimiters (open_of d ++ c ++ close_of d)) as [c0 m0].
  cbn [fst snd] in *. subst c0. f_equal.
  destruct Hm as [Hm|(-> & -> & _)]; [assumption | discriminate].
Qed.

(** X4. Round trip of one math region: a text that is plain text (no
    dollar, no backslash), then a content between one of the four pairs
    of delimiters, then plain text again, is segmented into exactly these
    three parts, with the mode of the pair; an empty part of plain text
    gives no segment.  The content is one that does not reach past its
    own closing delimiter, and it is not the empty content between single
    dollars. *)
Theorem parseContent_math_between_plain (d : Delimiter)
  (pre c post : jsstring) :
  plain pre = true -> plain post = true -> closes_behind d c = true ->
  (d = DDollar -> c <> []) ->
  parseContent (pre ++ open_of d ++ c ++ close_of d ++ post)
  = Some (literal pre ++ [mkSegment math_seg c (Some (display_of d))]
            ++ literal post).
Proof.
  intros Hpre Hpost Hcl Hne.
  assert (Hsp : spans d c = true).
  { unfold spans. fold (closes_behind d c). rewrite Hcl.
    destruct d; try reflexivity.
    destruct c; [now elim Hne | reflexivity]. }
  clear Hcl Hne.
  set (m := open_of d ++ c ++ close_of d).
  set (text := pre ++ open_of d ++ c ++ close_of d ++ post).
  assert (Htext : text = pre ++ m ++ post)
    by (unfold text, m; now rewrite <- !app_assoc).
  assert (Hm2 : (2 <= length m)%nat).
  { unfold m. rewrite !length_app.
    pose proof (delimited_form_length d c). lia. }
  assert (Hlen : length text = (length pre + length m + length post)%nat)
    by (rewrite Htext, !length_app; lia).
  assert (Hex1 : regex_exec text 0
                 = Some (length pre, (length pre + length m)%nat)).
  { unfold regex_exec. cbn [skipn char_before].
    unfold text. rewrite search_plain_prefix;
      [|assumption | destruct d; discriminate].
    rewrite (search_here _ _ _ _
               (length (open_of d) + length c + length (close_of d)));
      [|apply latex_regex_delimited_form;
        [assumption | now apply prev_after_plain]].
    cbn [Nat.add]. unfold m. rewrite !length_app. do 2 f_equal. lia. }
  assert (Hex2 : regex_exec text (length pre + length m) = None).
  { unfold regex_exec.
    replace (skipn (length pre + length m) text) with post.
    - now rewrite search_plain.
    - rewrite Htext, app_assoc, skipn_app, skipn_all2
        by (rewrite length_app; lia).
      rewrite length_app.
      replace (length pre + length m - (length pre + length m))%nat
        with 0%nat by lia.
      reflexivity. }
  unfold parseContent. rewrite Hlen.
  replace (S (length pre + length m + length post))
    with (S (S (length pre + length m + length post - 1))) by lia.
  cbn [parse_loop]. rewrite Hex1.
  assert (Hfull : slice text (Z.of_nat (length pre))
                    (Z.of_nat (length pre + length m)) = m).
  { rewrite slice_nat by lia. rewrite Htext, skipn_app, skipn_all,
      Nat.sub_diag. cbn [skipn app].
    replace (length pre + length m - length pre)%nat with (length m) by lia.
    rewrite firstn_app, firstn_all, Nat.sub_diag. cbn [firstn].
    apply app_nil_r. }
  rewrite Hfull. unfold m at 1. rewrite (strip_delimiters_spans d c Hsp).
  rewrite Hex2.
  assert (Hpre_seg :
            (if (0 <? length pre)%nat
             then [] ++ [mkSegment text_seg
                           (slice text (Z.of_nat 0) (Z.of_nat (length pre)))
                           None]
             else []) = literal pre).
  { assert (Hs : slice text (Z.of_nat 0) (Z.of_nat (length pre)) = pre).
    { rewrite slice_nat by lia. cbn [skipn]. rewrite Nat.sub_0_r, Htext.
      rewrite firstn_app, firstn_all, Nat.sub_diag. cbn [firstn].
      apply app_nil_r. }
    rewrite Hs. clear. destruct pre; reflexivity. }
  rewrite Hpre_seg. f_equal.
  assert (Hpost_seg : skipn (length pre + length m) text = post).
  { rewrite Htext, app_assoc, skipn_app, skipn_all2
      by (rewrite length_app; lia).
    rewrite length_app.
    replace (length pre + length m - (length pre + length m))%nat
      with 0%nat by lia.
    reflexivity. }
  destruct (Nat.ltb_spec (length pre + length m) (length text)) as [Hlt|Hge].
  - rewrite slice_from_nat by lia. rewrite Hpost_seg, <- app_assoc.
    do 3 f_equal. destruct post; [cbn in Hlen; lia | reflexivity].
  - destruct post; [|cbn in Hlen; lia]. now rewrite app_nil_r.
Qed.

Lemma parseContent_math_between_plain_witness :
  parseContent (js "Area: " ++ open_of DDollar ++ js "\pi r^2"
                  ++ close_of DDollar ++ js " units")
  = Some (literal (js "Area: ")
            ++ [mkSegment math_seg (js "\pi r^2") (Some (display_of DDollar))]
            ++ literal (js " units")).
Proof.
  apply parseContent_math_between_plain;
    [vm_compute; reflexivity .. | intros _; discriminate].
Defined.

(** ** More about the export *)

(** X5. The body is built segment by segment: the body of two segment
    lists one after the other is the body of the first followed by the
    body of the second, and no segments give an empty body.  No segment's
    markup depends on its neighbours or on its index. *)
Theorem bodyContent_app
  (render : jsstring -> option bool -> completion jsstring)
  (segs1 segs2 : list TextSegment) (rich : bool) (style : ExportStyle) :
  bodyContent render (segs1 ++ segs2) rich style
  = bodyContent render segs1 rich style ++ bodyContent render segs2 rich style
  /\ bodyContent render [] rich style = [].
Proof.
  split; [|reflexivity].
  rewrite !bodyContent_concat, map_app, concat_app. reflexivity.
Qed.

(** X6. Only [worksheet] and [flashcards] change the body: under each of
    the seven other styles the segments give the body of [standard]. *)
Theorem layout_styles_share_body
  (render : jsstring -> option bool -> completion jsstring)
  (segs : list TextSegment) (rich : bool) (style : ExportStyle) :
  style <> worksheet -> style <> flashcards ->
  bodyContent render segs rich style = bodyContent render segs rich standard.
Proof.
  intros Hw Hf. rewrite !bodyContent_concat. f_equal.
  apply map_ext. intros seg.
  destruct style; try reflexivity; congruence.
Qed.

Lemma layout_styles_share_body_witness :
  bodyContent (fun _ _ => Throw) [Text "a"; Math "x" true] false landscape
  = bodyContent (fun _ _ => Throw) [Text "a"; Math "x" true] false standard.
Proof.
  apply layout_styles_share_body; discriminate.
Defined.

(** X7. Rich text without math goes through unchanged: for a text
    without delimiters, segmenting it and exporting the segments in
    rich-text mode gives the text itself as body, under every style but
    [flashcards]. *)
Theorem rich_text_without_math_unchanged
  (render : jsstring -> option bool -> completion jsstring)
  (text : jsstring) (style : ExportStyle) :
  no_delimiters text -> style <> flashcards ->
  exists segs,
    parseContent text = Some segs /\
    bodyContent render segs true style = text.
Proof.
  intros Hn Hf. exists (literal text). split.
  - apply parseContent_no_match, no_delimiters_exec, Hn.
  - destruct text as [|c text]; [reflexivity|].
    cbn [literal]. rewrite bodyContent_concat. cbn [map List.concat].
    rewrite app_nil_r, contribution_not_flashcards
      by (destruct style; try reflexivity; congruence).
    unfold segment_html, worksheet_lines, text_html. cbn [type content].
    rewrite andb_false_r. apply app_nil_r.
Qed.

Lemma rich_text_without_math_unchanged_witness :
  exists segs,
    parseContent (js "<p>Hello</p>") = Some segs /\
    bodyContent (fun _ _ => Throw) segs true worksheet = js "<p>Hello</p>".
Proof.
  apply rich_text_without_math_unchanged; [|discriminate].
  repeat split; vm_compute; first [reflexivity | repeat constructor].
Defined.

Lemma replace_char_flat_map (c : char) (by_ : jsstring)
  (f : char -> jsstring) (s : jsstring) :
  replace_char c by_ (flat_map f s)
  = flat_map (fun x => replace_char c by_ (f x)) s.
Proof.
  induction s as [|x s IH]; [reflexivity|].
  change (flat_map f (x :: s)) with (f x ++ flat_map f s).
  unfold replace_char at 1. rewrite flat_map_app.
  change (replace_char c by_ (f x) ++ replace_char c by_ (flat_map f s)
          = replace_char c by_ (f x)
              ++ flat_map (fun x0 => replace_char c by_ (f x0)) s).
  now rewrite IH.
Qed.

Lemma escape_html_entities (s : jsstring) :
  escape_html s = flat_map entity s.
Proof.
  unfold escape_html. unfold replace_char at 3.
  rewrite !replace_char_flat_map. apply flat_map_ext. intros c.
  unfold entity.
  destruct (N.eqb_spec c 38) as [->|H38]; [reflexivity|].
  destruct (N.eqb_spec c 60) as [->|H60]; [reflexivity|].
  destruct (N.eqb_spec c 62) as [->|H62]; [reflexivity|].
  unfold replace_char. cbn [flat_map app].
  apply N.eqb_neq in H60, H62. rewrite H60. cbn [flat_map app].
  now rewrite H62.
Qed.

Lemma entities_no_angle (s : jsstring) :
  forallb (fun c => negb (c =? 60) && negb (c =? 62)) (flat_map entity s)
  = true.
Proof.
  induction s as [|c s IH]; [reflexivity|].
  change (flat_map entity (c :: s)) with (entity c ++ flat_map entity s).
  rewrite forallb_app. apply andb_true_iff. split; [|exact IH].
  unfold entity.
  destruct (N.eqb_spec c 38) as [->|H38]; [reflexivity|].
  destruct (N.eqb_spec c 60) as [->|H60]; [reflexivity|].
  destruct (N.eqb_spec c 62) as [->|H62]; [reflexivity|].
  cbn [forallb]. apply N.eqb_neq in H60, H62. now rewrite H60, H62.
Qed.

(** X8. Escaping in plain-text mode: the three replacements of [&], [<]
    and [>], done one after the other, replace each character by its
    entity once (the ampersand of an entity is not escaped again), the
    result holds no [<] and no [>], and the markup of a text segment is
    built from this result. *)
Theorem plain_text_is_escaped (seg : TextSegment) :
  text_html false seg
  = text_run (replace_char ch_lf (js "<br/>")
      (replace_all sub_item_marker 0 None
        (replace_all section_marker 0 None (escape_html (content seg)))))
  /\ escape_html (content seg) = flat_map entity (content seg)
  /\ forallb (fun c => negb (c =? 60) && negb (c =? 62))
       (escape_html (content seg)) = true.
Proof.
  split; [reflexivity|]. split; [apply escape_html_entities|].
  rewrite escape_html_entities. apply entities_no_angle.
Qed.

(** X9. Escaping loses nothing: two texts with the same escaped form are
    the same text. *)
Theorem escape_html_injective (a b : jsstring) :
  escape_html a = escape_html b -> a = b.
Proof.
  rewrite !escape_html_entities.
  revert b; induction a as [|x a IH]; intros [|y b] H.
  - reflexivity.
  - exfalso. cbn [flat_map] in H. unfold entity in H.
    destruct (y =? 38); [discriminate|]. destruct (y =? 60); [discriminate|].
    destruct (y =? 62); discriminate.
  - exfalso. cbn [flat_map] in H. unfold entity in H.
    destruct (x =? 38); [discriminate|]. destruct (x =? 60); [discriminate|].
    destruct (x =? 62); discriminate.
  - cbn [flat_map] in H. unfold entity in H.
    destruct (N.eqb_spec x 38) as [->|Hx1];
      [|destruct (N.eqb_spec x 60) as [->|Hx2];
        [|destruct (N.eqb_spec x 62) as [->|Hx3]]];
    (destruct (N.eqb_spec y 38) as [->|Hy1];
      [|destruct (N.eqb_spec y 60) as [->|Hy2];
        [|destruct (N.eqb_spec y 62) as [->|Hy3]]]);
    cbn in H; try discriminate; inversion H; subst;
      try congruence; f_equal; now apply IH.
Qed.

Lemma escape_html_injective_witness : js "a<b" = js "a<b".
Proof.
  apply escape_html_injective. reflexivity.
Defined.

(** * The math element of the export *)








(** ** The names of uploaded and exported files *)

(** X10. With one file name, the nine styles give nine different
    download names, each ending in [.docx]: exports in different styles
    never share a name. *)
Theorem download_name_injective (fileName : jsstring)
  (style1 style2 : ExportStyle) :
  (download_name fileName style1 = download_name fileName style2 ->
   style1 = style2) /\
  exists stem, download_name fileName style1 = stem ++ js ".docx".
Proof.
  split.
  - unfold download_name. intros H.
    apply app_inv_head, app_inv_tail in H.
    destruct style1, style2; try reflexivity; vm_compute in H; discriminate.
  - exists (fileName ++ export_suffix style1). unfold download_name.
    now rewrite app_assoc.
Qed.

(** The greedy star of a class in front of the end of the subject takes
    the whole rest, or fails. *)
Lemma turns_class_at_end {A} (p : char -> bool) (k : cont A)
  (caps : list jsstring) :
  forall (s : jsstring) (n : nat) (prev : option char),
    (length s <= n)%nat ->
    turns (run (Chr p)) true (at_end k) n caps prev s
    = if forallb p s then k caps (prev_after prev s) [] else None.
Proof.
  induction s as [|c s IH]; intros n prev Hn.
  - destruct n; reflexivity.
  - destruct n as [|n]; [cbn in Hn; lia|].
    cbn [turns run forallb at_end]. destruct (p c); [|reflexivity].
    rewrite IH by (cbn in Hn; lia). cbn [andb prev_after fold_left].
    destruct (forallb p s); [|reflexivity].
    destruct (k caps _ []); reflexivity.
Qed.

Lemma extension_match_spec (prev : option char) (s : jsstring) :
  extension_match prev s
  = match s with
    | c :: (_ :: _) as t =>
      if (c =? 46) && forallb not_separator t then Some (length s) else None
    | _ => None
    end.
Proof.
  unfold extension_match.
  change extension_pattern
    with (Seq (Chr (N.eqb 46)) (Plus true (Chr not_separator))).
  unfold Plus. destruct s as [|c t]; [reflexivity|].
  cbn [run]. rewrite N.eqb_sym.
  destruct (c =? 46); cbn [andb]; [|now destruct t].
  destruct t as [|d t]; [reflexivity|].
  cbn [forallb]. destruct (not_separator d); [|reflexivity].
  pose proof (turns_class_at_end not_separator
                (fun _ _ s' => Some (length (c :: d :: t) - length s')%nat)
                [] t (length t) (Some d) (Nat.le_refl _)) as H.
  cbn [run] in H. rewrite H. cbn [andb].
  destruct (forallb not_separator t); [|reflexivity].
  cbn [length]. f_equal.
Qed.

Lemma search_extension (ext : jsstring) :
  ext <> [] -> forallb not_separator ext = true ->
  forall (base : jsstring) (prev : option char) (i : nat),
    search extension_match prev (base ++ 46 :: ext) i
    = Some ((i + length base)%nat, S (length ext)).
Proof.
  intros Hne Hext. induction base as [|x base IH]; intros prev i.
  - cbn [app length]. rewrite Nat.add_0_r. apply search_here.
    rewrite extension_match_spec. destruct ext as [|e ext]; [congruence|].
    now rewrite Hext.
  - assert (Hnone : extension_match prev (x :: base ++ 46 :: ext) = None).
    { rewrite extension_match_spec.
      assert (Hf : forallb not_separator (base ++ 46 :: ext) = false).
      { rewrite forallb_app. cbn [forallb].
        change (not_separator 46) with false. cbn [andb].
        apply andb_false_r. }
      destruct (base ++ 46 :: ext) as [|y t]; [reflexivity|].
      now rewrite Hf, andb_false_r. }
    cbn [app search]. rewrite Hnone, IH. cbn [length].
    do 2 f_equal. lia.
Qed.

Lemma split_char_no_separator (sep : char) (s : jsstring) :
  forall cur : jsstring,
    forallb (fun c => negb (c =? sep)) s = true ->
    split_char sep cur s = [cur ++ s].
Proof.
  induction s as [|c s IH]; intros cur H; cbn [split_char].
  - now rewrite app_nil_r.
  - cbn [forallb] in H. apply andb_true_iff in H as [Hc Hs].
    apply negb_true_iff in Hc. rewrite Hc, IH by assumption.
    now rewrite <- app_assoc.
Qed.

Lemma split_char_not_nil (sep : char) (s cur : jsstring) :
  split_char sep cur s <> [].
Proof.
  revert cur; induction s as [|c s IH]; intros cur; cbn [split_char];
    [discriminate|].
  destruct (c =? sep); [discriminate | apply IH].
Qed.

Lemma last_split_char (sep : char) (ext : jsstring) :
  forall base cur : jsstring,
    last (split_char sep cur (base ++ sep :: ext)) []
    = last (split_char sep [] ext) [].
Proof.
  induction base as [|x base IH]; intros cur; cbn [app split_char].
  - rewrite N.eqb_refl.
    destruct (split_char sep [] ext) eqn:E; [|reflexivity].
    now apply split_char_not_nil in E.
  - destruct (x =? sep); [|apply IH].
    destruct (split_char sep [] (base ++ sep :: ext)) eqn:E;
      [now apply split_char_not_nil in E|].
    rewrite <- E. cbn [last]. rewrite E at 1. apply IH.
Qed.

Lemma not_separator_no_dot (s : jsstring) :
  forallb not_separator s = true ->
  forallb (fun c => negb (c =? 46)) s = true.
Proof.
  induction s as [|c s IH]; [reflexivity|]. cbn [forallb].
  intros H. apply andb_true_iff in H as [Hc Hs].
  rewrite IH by assumption. unfold not_separator in Hc.
  apply negb_true_iff, orb_false_iff in Hc as [_ Hc]. now rewrite Hc.
Qed.

(** X11. The name of an uploaded file ending in a dot and an extension
    (one character or more, none of them a dot or a slash) is split at
    that dot: "Remove extension" gives what stands before it, whatever
    dots that holds, [split('.').pop()] gives what stands behind it, the
    dispatch goes by that extension in lower case, and the download name
    is built from the part before the dot. *)
Theorem file_name_with_extension (toLowerCase : jsstring -> jsstring)
  (base ext : jsstring) (style : ExportStyle) :
  ext <> [] -> forallb not_separator ext = true ->
  remove_extension (base ++ js "." ++ ext) = base /\
  name_extension (base ++ js "." ++ ext) = ext /\
  dispatch_extension toLowerCase (base ++ js "." ++ ext) = toLowerCase ext /\
  download_name (remove_extension (base ++ js "." ++ ext)) style
  = base ++ export_suffix style ++ js ".docx".
Proof.
  intros Hne Hext.
  assert (Hr : remove_extension (base ++ js "." ++ ext) = base).
  { unfold remove_extension, remove_first.
    change (js "." ++ ext) with (46 :: ext).
    rewrite search_extension by assumption. cbn [Nat.add].
    rewrite firstn_app, firstn_all, Nat.sub_diag. cbn [firstn].
    rewrite skipn_all2 by (rewrite length_app; cbn; lia).
    now rewrite !app_nil_r. }
  assert (He : name_extension (base ++ js "." ++ ext) = ext).
  { unfold name_extension. change (js "." ++ ext) with (46 :: ext).
    rewrite last_split_char.
    rewrite split_char_no_separator by now apply not_separator_no_dot.
    reflexivity. }
  split; [exact Hr|]. split; [exact He|]. split.
  - unfold dispatch_extension. now rewrite He.
  - now rewrite Hr.
Qed.

Lemma file_name_with_extension_witness :
  remove_extension (js "de.thi.2024" ++ js "." ++ js "pdf") = js "de.thi.2024".
Proof.
  apply (file_name_with_extension (fun s => s) (js "de.thi.2024") (js "pdf")
           standard);
    [discriminate | reflexivity].
Defined.

(** X12. A file name without a dot keeps its whole name as file name,
    and the same whole name is what the dispatcher takes for the
    extension. *)
Theorem file_name_without_dot (name : jsstring) :
  forallb (fun c => negb (c =? 46)) name = true ->
  remove_extension name = name /\ name_extension name = name.
Proof.
  intros H. split.
  - unfold remove_extension, remove_first.
    rewrite (search_fails extension_match
               (fun s => forallb (fun c => negb (c =? 46)) s = true));
      trivial.
    + intros prev s Hs. rewrite extension_match_spec.
      destruct s as [|c [|d t]]; try reflexivity.
      cbn [forallb] in Hs. apply andb_true_iff in Hs as [Hc _].
      apply negb_true_iff in Hc. now rewrite Hc.
    + intros c s Hs. cbn [forallb] in Hs.
      now apply andb_true_iff in Hs as [_ Hs].
  - unfold name_extension. now rewrite split_char_no_separator.
Qed.

Lemma file_name_without_dot_witness :
  name_extension (js "pdf") = js "pdf".
Proof.
  apply (file_name_without_dot (js "pdf")). reflexivity.
Defined.

(** ** The matcher only finds what the pattern describes *)

Lemma prev_after_app (prev : option char) (a b : jsstring) :
  prev_after prev (a ++ b) = prev_after (prev_after prev a) b.
Proof. unfold prev_after. apply fold_left_app. Qed.

Section Soundness.

Context {A : Type}.

Lemma turns_sound (a : regex) (g : bool)
  (body : list jsstring -> option char -> jsstring -> cont A -> option A) :
  (forall caps prev s (k : cont A) x,
     body caps prev s k = Some x ->
     exists w c rest,
       s = w ++ rest /\ Matches a prev w c /\
       k (caps ++ c) (prev_after prev w) rest = Some x) ->
  forall n caps prev s (k : cont A) x,
    turns body g k n caps prev s = Some x ->
    exists w c rest,
      s = w ++ rest /\ Matches (Star g a) prev w c /\
      k (caps ++ c) (prev_after prev w) rest = Some x.
Proof.
  intros Hbody. induction n as [|n IH]; intros caps prev s k x H.
  - exists [], [], s. cbn [turns] in H. rewrite app_nil_r.
    repeat split; [apply M_star_stop|]. cbn [prev_after fold_left].
    destruct g; [exact H|].
    destruct (k caps prev s) as [y|]; [exact H | discriminate].
  - cbn [turns] in H.
    assert (Hstop : k caps prev s = Some x ->
              exists w c rest,
                s = w ++ rest /\ Matches (Star g a) prev w c /\
                k (caps ++ c) (prev_after prev w) rest = Some x).
    { intros Hk. exists [], [], s. rewrite app_nil_r.
      repeat split; [apply M_star_stop | exact Hk]. }
    assert (Hturn :
              body caps prev s
                (fun caps' prev' s' => turns body g k n caps' prev' s')
              = Some x ->
              exists w c rest,
                s = w ++ rest /\ Matches (Star g a) prev w c /\
                k (caps ++ c) (prev_after prev w) rest = Some x).
    { intros Hb. apply Hbody in Hb as (w1 & c1 & rest1 & -> & Hm1 & Hb).
      apply IH in Hb as (w2 & c2 & rest2 & -> & Hm2 & Hb).
      exists (w1 ++ w2), (c1 ++ c2), rest2.
      rewrite <- !app_assoc, prev_after_app. rewrite <- app_assoc in Hb.
      repeat split; [|exact Hb]. now apply M_star_turn. }
    destruct g.
    + destruct (body caps prev s _) as [y|] eqn:Eb.
      * inversion H; subst y. now apply Hturn.
      * now apply Hstop.
    + destruct (k caps prev s) as [y|] eqn:Ek.
      * inversion H; subst y. now apply Hstop.
      * now apply Hturn.
Qed.

(** What a successful run gives: a split of the subject, a match of the
    pattern on the first part, and the continuation on the rest. *)
Lemma run_sound (r : regex) :
  forall caps prev s (k : cont A) x,
    run r caps prev s k = Some x ->
    exists w c rest,
      s = w ++ rest /\ Matches r prev w c /\
      k (caps ++ c) (prev_after prev w) rest = Some x.
Proof.
  induction r as [|p|a IHa b IHb|a IHa b IHb|g a IHa|a IHa| |p|a IHa];
    intros caps prev s k x H; cbn [run] in H.
  - exists [], [], s. rewrite app_nil_r. repeat split; [constructor | exact H].
  - destruct s as [|c s]; [discriminate|].
    destruct (p c) eqn:Ep; [|discriminate].
    exists [c], [], s. rewrite app_nil_r.
    repeat split; [now constructor | exact H].
  - apply IHa in H as (w1 & c1 & rest1 & -> & Hm1 & H).
    apply IHb in H as (w2 & c2 & rest2 & -> & Hm2 & H).
    exists (w1 ++ w2), (c1 ++ c2), rest2.
    rewrite <- !app_assoc, prev_after_app. rewrite <- app_assoc in H.
    repeat split; [|exact H]. now constructor.
  - destruct (run a caps prev s k) as [y|] eqn:Ea.
    + inversion H; subst y.
      apply IHa in Ea as (w & c & rest & -> & Hm & Hk).
      exists w, c, rest. repeat split; [now apply M_alt_l | exact Hk].
    + apply IHb in H as (w & c & rest & -> & Hm & Hk).
      exists w, c, rest. repeat split; [now apply M_alt_r | exact Hk].
  - eapply turns_sound; eassumption.
  - destruct (run a caps prev s k) as [y|] eqn:Ea.
    + inversion H; subst y.
      apply IHa in Ea as (w & c & rest & -> & Hm & Hk).
      exists w, c, rest. repeat split; [now apply M_opt_some | exact Hk].
    + exists [], [], s. rewrite app_nil_r.
      repeat split; [apply M_opt_none | exact H].
  - destruct prev; [discriminate|].
    exists [], [], s. rewrite app_nil_r.
    repeat split; [constructor | exact H].
  - exists [], [], s. rewrite app_nil_r.
    destruct prev as [c|].
    + destruct (p c) eqn:Ep; [discriminate|].
      repeat split; [now constructor | exact H].
    + repeat split; [now constructor | exact H].
  - apply IHa in H as (w & c & rest & -> & Hm & H).
    exists w, (c ++ [w]), rest.
    rewrite length_app in H.
    replace (length w + length rest - length rest)%nat with (length w)
      in H by lia.
    rewrite firstn_app, firstn_all, Nat.sub_diag in H. cbn [firstn] in H.
    rewrite app_nil_r, <- app_assoc in H.
    repeat split; [now constructor | exact H].
Qed.

End Soundness.

(** A match found by [matches] is a match of the pattern on a prefix of
    the subject, with its length and its captures. *)
Lemma matches_sound (r : regex) (prev : option char) (s : jsstring)
  (n : nat) (caps : list jsstring) :
  matches r prev s = Some (n, caps) ->
  exists w rest,
    s = w ++ rest /\ n = length w /\ Matches r prev w caps.
Proof.
  unfold matches. intros H.
  apply run_sound in H as (w & c & rest & -> & Hm & H).
  inversion H; subst. exists w, rest.
  rewrite length_app. repeat split; [lia | exact Hm].
Qed.

(** ** The post-processing of the transcription *)

(** *** Global replacement, one match at a time *)

Lemma replace_all_skip (m : option char -> jsstring -> option (nat * jsstring))
  (rest : jsstring) :
  forall (w : jsstring) (prev : option char),
    replace_all m (length w) prev (w ++ rest)
    = replace_all m 0 (prev_after prev w) rest.
Proof.
  induction w as [|c w IH]; intros prev; [now destruct rest|].
  cbn [length app replace_all]. apply IH.
Qed.

Lemma replace_all_match (m : option char -> jsstring -> option (nat * jsstring))
  (prev : option char) (w rest r : jsstring) :
  w <> [] ->
  m prev (w ++ rest) = Some (length w, r) ->
  replace_all m 0 prev (w ++ rest)
  = r ++ replace_all m 0 (prev_after prev w) rest.
Proof.
  intros Hw Hm. destruct w as [|c w]; [congruence|].
  cbn [app replace_all] in *. rewrite Hm. cbn [length]. f_equal.
  apply (replace_all_skip m rest w (Some c)).
Qed.

Lemma replace_all_copy (m : option char -> jsstring -> option (nat * jsstring))
  (prev : option char) (c : char) (s : jsstring) :
  m prev (c :: s) = None ->
  replace_all m 0 prev (c :: s) = c :: replace_all m 0 (Some c) s.
Proof. intros Hm. cbn [replace_all]. now rewrite Hm. Qed.

(** *** Blank lines *)

Lemma take_drop_while (p : char -> bool) (s : jsstring) :
  s = take_while p s ++ drop_while p s.
Proof.
  induction s as [|c s IH]; [reflexivity|].
  cbn [take_while drop_while]. destruct (p c); [|reflexivity].
  cbn [app]. now f_equal.
Qed.

Lemma drop_while_head (p : char -> bool) (s : jsstring) :
  match drop_while p s with
  | c :: _ => p c = false
  | [] => True
  end.
Proof.
  induction s as [|c s IH]; [exact I|].
  cbn [drop_while]. destruct (p c) eqn:E; [exact IH | exact E].
Qed.

(** The greedy star of a class, with nothing behind it that can fail,
    takes all the characters of the class. *)
Lemma turns_class_greedy {A} (p : char -> bool) (k : cont A)
  (final : list jsstring -> jsstring -> A) (caps : list jsstring) :
  (forall caps prev s, k caps prev s = Some (final caps s)) ->
  forall (s : jsstring) (n : nat) (prev : option char),
    (length s <= n)%nat ->
    turns (run (Chr p)) true k n caps prev s
    = Some (final caps (drop_while p s)).
Proof.
  intros Hk. induction s as [|c s IH]; intros n prev Hn.
  - destruct n; cbn [turns run drop_while]; apply Hk.
  - destruct n as [|n]; [cbn in Hn; lia|].
    cbn [turns run drop_while]. destruct (p c); [|apply Hk].
    now rewrite IH by (cbn in Hn; lia).
Qed.

Lemma blank_lines_match (prev : option char) (s : jsstring) :
  replacement blank_lines_pattern (fun _ => [ch_lf; ch_lf]) prev s
  = match s with
    | a :: b :: c :: t =>
      if is_lf a && is_lf b && is_lf c
      then Some ((3 + length (take_while is_lf t))%nat, [ch_lf; ch_lf])
      else None
    | _ => None
    end.
Proof.
  unfold replacement, matches.
  change blank_lines_pattern
    with (Seq (Chr is_lf) (Seq (Chr is_lf)
            (Seq (Chr is_lf) (Star true (Chr is_lf))))).
  destruct s as [|a s]; [reflexivity|]. cbn [run].
  destruct (is_lf a); cbn [andb]; [|now destruct s as [|? [|? ?]]].
  destruct s as [|b s]; [reflexivity|].
  destruct (is_lf b); cbn [andb]; [|now destruct s].
  destruct s as [|c t]; [reflexivity|].
  destruct (is_lf c); [|reflexivity].
  pose proof (turns_class_greedy is_lf
                (fun caps _ s' =>
                   Some ((length (a :: b :: c :: t) - length s')%nat, caps))
                (fun caps s' =>
                   ((length (a :: b :: c :: t) - length s')%nat, caps))
                [] (fun _ _ _ => eq_refl) t (length t) (Some c)
                (Nat.le_refl _)) as H.
  cbn [run] in H. rewrite H.
  do 2 f_equal. rewrite (take_drop_while is_lf t) at 1.
  cbn [length]. rewrite length_app. lia.
Qed.

Lemma is_lf_true (c : char) : is_lf c = true -> c = ch_lf.
Proof. unfold is_lf. intros H. apply N.eqb_eq in H. now symmetry. Qed.

Lemma is_lf_false (c : char) : is_lf c = false -> (c =? 10) = false.
Proof. unfold is_lf. now rewrite N.eqb_sym. Qed.

(** After the replacement of [\n{3,}] no three line feeds are left. *)
Lemma blank_lines_squeezed :
  forall (n : nat) (s : jsstring),
    (length s <= n)%nat ->
    forall (prev : option char) (j : nat),
      lf_guard j s = true ->
      lf_ok j (replace_all
                 (replacement blank_lines_pattern (fun _ => [ch_lf; ch_lf]))
                 0 prev s) = true.
Proof.
  set (B := replacement blank_lines_pattern (fun _ => [ch_lf; ch_lf])).
  induction n as [|n IH]; intros s Hn prev j Hg.
  - destruct s; [reflexivity | cbn in Hn; lia].
  - destruct s as [|a s1]; [reflexivity|].
    assert (Hcopy : B prev (a :: s1) = None ->
              lf_guard (if a =? ch_lf then S j else 0) s1 = true ->
              ((a =? ch_lf) = true -> (j <? 2)%nat = true) ->
              lf_ok j (replace_all B 0 prev (a :: s1)) = true).
    { intros Hnone Hg' Hj. rewrite replace_all_copy by assumption.
      cbn [lf_ok]. destruct (a =? ch_lf).
      - rewrite Hj by reflexivity. cbn [andb].
        apply IH; [cbn in Hn; lia | assumption].
      - apply IH; [cbn in Hn; lia | assumption]. }
    pose proof (blank_lines_match prev (a :: s1)) as Hm. fold B in Hm.
    destruct (is_lf a) eqn:Ea.
    + apply is_lf_true in Ea. subst a.
      destruct s1 as [|b s2].
      { apply Hcopy; [assumption | now destruct j as [|[|j]] |].
        intros _. destruct j as [|[|j]]; [reflexivity..|discriminate]. }
      destruct (is_lf b) eqn:Eb.
      * apply is_lf_true in Eb. subst b.
        destruct j as [|[|j]]; [|discriminate|discriminate].
        destruct s2 as [|c t].
        { apply Hcopy; [assumption | reflexivity | reflexivity]. }
        destruct (is_lf c) eqn:Ec.
        -- apply is_lf_true in Ec. subst c.
           change (is_lf ch_lf) with true in Hm. cbn [andb] in Hm.
           set (w := ch_lf :: ch_lf :: ch_lf :: take_while is_lf t).
           assert (Hs : ch_lf :: ch_lf :: ch_lf :: t = w ++ drop_while is_lf t).
           { unfold w. cbn [app]. now rewrite <- take_drop_while. }
           rewrite Hs in Hm |- *.
           rewrite (replace_all_match B prev w _ [ch_lf; ch_lf]);
             [|discriminate | exact Hm].
           change (lf_ok 0 ([ch_lf; ch_lf] ++ ?x)) with (lf_ok 2 x).
           apply IH.
           ++ apply (f_equal (@length char)) in Hs.
              rewrite length_app in Hs. unfold w in Hs. cbn in Hs, Hn. lia.
           ++ cbn [lf_guard]. pose proof (drop_while_head is_lf t) as Hd.
              destruct (drop_while is_lf t) as [|d rest]; [reflexivity|].
              cbn [startsWith]. apply is_lf_false in Hd.
              change ch_lf with 10. now rewrite Hd.
        -- change (is_lf ch_lf) with true in Hm. cbn [andb] in Hm.
           apply Hcopy; [assumption | | reflexivity].
           rewrite N.eqb_refl. cbn [lf_guard startsWith].
           rewrite N.eqb_refl.
           apply is_lf_false in Ec. change ch_lf with 10. now rewrite Ec.
      * change (is_lf ch_lf) with true in Hm. cbn [andb] in Hm.
        assert (Hnone : B prev (ch_lf :: b :: s2) = None)
          by (rewrite Hm; now destruct s2).
        apply is_lf_false in Eb.
        apply Hcopy; [assumption | |].
        -- rewrite N.eqb_refl.
           destruct j as [|[|j]];
             cbn [lf_guard startsWith]; change ch_lf with 10;
             rewrite ?Eb; reflexivity.
        -- intros _. destruct j as [|[|j]]; try reflexivity.
           cbn [lf_guard startsWith] in Hg. now rewrite N.eqb_refl in Hg.
    + assert (Hnone : B prev (a :: s1) = None)
        by (rewrite Hm; destruct s1 as [|? [|? ?]]; try reflexivity;
            now rewrite Ea).
      apply is_lf_false in Ea. change ch_lf with 10 in Hcopy.
      apply Hcopy; [assumption | rewrite Ea; reflexivity |].
      rewrite Ea. discriminate.
Qed.

Lemma lf_ok_triple (a b : jsstring) :
  forall j, lf_ok j (a ++ [ch_lf; ch_lf; ch_lf] ++ b) = false.
Proof.
  induction a as [|c a IH]; intros j.
  - cbn [app lf_ok]. rewrite N.eqb_refl.
    destruct j as [|[|j]]; reflexivity.
  - cbn [app lf_ok]. destruct (c =? ch_lf); [|apply IH].
    rewrite IH. apply andb_false_r.
Qed.

Lemma lf_ok_includes (l : jsstring) :
  lf_ok 0 l = true -> includes l [ch_lf; ch_lf; ch_lf] = false.
Proof.
  intros H. destruct (includes l [ch_lf; ch_lf; ch_lf]) eqn:E;
    [|reflexivity].
  apply includes_iff in E as (a & b & ->).
  now rewrite lf_ok_triple in H.
Qed.

(** *** [trim] *)

Lemma trimStart_suffix (s : jsstring) :
  exists ws, s = ws ++ trimStart s.
Proof.
  induction s as [|c s [ws IH]]; [now exists []|].
  cbn [trimStart]. destruct (is_space c).
  - exists (c :: ws). cbn [app]. now f_equal.
  - now exists [].
Qed.

Lemma trim_split (s : jsstring) :
  exists a b, s = a ++ trim s ++ b.
Proof.
  unfold trim.
  destruct (trimStart_suffix s) as [a Ha].
  destruct (trimStart_suffix (rev (trimStart s))) as [b Hb].
  exists a, (rev b). rewrite <- rev_app_distr, <- Hb, rev_involutive.
  exact Ha.
Qed.

Lemma trimStart_fixed (s : jsstring) :
  match s with c :: _ => is_space c = false | [] => True end ->
  trimStart s = s.
Proof. destruct s as [|c s]; [reflexivity|]. cbn. now intros ->. Qed.

Lemma trimStart_head (s : jsstring) :
  match trimStart s with c :: _ => is_space c = false | [] => True end.
Proof.
  induction s as [|c s IH]; [exact I|].
  cbn [trimStart]. destruct (is_space c) eqn:E; [exact IH | exact E].
Qed.

Lemma trimStart_snoc (l : jsstring) (c : char) :
  is_space c = false -> exists l', trimStart (l ++ [c]) = l' ++ [c].
Proof.
  intros Hc. induction l as [|x l [l' IH]].
  - exists []. cbn. now rewrite Hc.
  - cbn [app trimStart]. destruct (is_space x).
    + now exists l'.
    + now exists (x :: l).
Qed.

(** [trim] leaves nothing to trim. *)
Lemma trim_idempotent (s : jsstring) : trim (trim s) = trim s.
Proof.
  unfold trim.
  pose proof (trimStart_head s) as Hh.
  destruct (trimStart s) as [|c u] eqn:Eu; [reflexivity|].
  cbn [rev]. destruct (trimStart_snoc (rev u) c Hh) as [l' Hl].
  rewrite Hl, rev_app_distr. cbn [rev app].
  rewrite (trimStart_fixed (c :: rev l')) by exact Hh.
  cbn [rev]. rewrite rev_involutive.
  assert (Hx : trimStart (l' ++ [c]) = l' ++ [c]).
  { rewrite <- Hl. apply trimStart_fixed. apply trimStart_head. }
  now rewrite Hx, rev_app_distr.
Qed.

(** X13. The post-processed transcription has at most one blank line in
    a row (no three line feeds follow each other) and neither starts nor
    ends with white space, whatever the model returned. *)
Theorem postprocess_blank_lines (response_text : option jsstring) :
  includes (postprocess response_text) [ch_lf; ch_lf; ch_lf] = false /\
  trim (postprocess response_text) = postprocess response_text.
Proof.
  unfold postprocess. split; [|apply trim_idempotent].
  match goal with
  | |- includes (trim ?t) _ = false =>
    destruct (trim_split t) as (a & b & Ht);
    apply (includes_app_false _ _ a b); rewrite <- Ht
  end.
  apply lf_ok_includes. eapply blank_lines_squeezed; reflexivity.
Qed.

(** *** Bold markers *)

Lemma Matches_rejects (x : char) (r : regex) (prev : option char)
  (w : jsstring) (caps : list jsstring) :
  Matches r prev w caps -> rejects x r = true ->
  forallb (fun c => negb (c =? x)) w = true /\
  Forall (fun cap => forallb (fun c => negb (c =? x)) cap = true) caps.
Proof.
  induction 1 as [prev|p c prev Hp|a b prev w1 w2 c1 c2 _ IH1 _ IH2
                 |a b prev w c _ IH|a b prev w c _ IH|g a prev
                 |g a prev w1 w2 c1 c2 _ IH1 _ IH2|a prev w c _ IH|a prev
                 | |p prev Hp|a prev w c _ IH];
    cbn [rejects]; intros Hr; try (split; [reflexivity | constructor]).
  - split; [|constructor]. cbn [forallb]. rewrite andb_true_r.
    apply negb_true_iff. destruct (N.eqb_spec c x) as [->|]; [|reflexivity].
    rewrite Hp in Hr. discriminate.
  - apply andb_true_iff in Hr as [Ha Hb].
    destruct (IH1 Ha) as [H1 H1']. destruct (IH2 Hb) as [H2 H2'].
    split; [|now apply Forall_app].
    rewrite forallb_app. apply andb_true_iff. now split.
  - apply andb_true_iff in Hr as [Ha _]. now apply IH.
  - apply andb_true_iff in Hr as [_ Hb]. now apply IH.
  - destruct (IH1 Hr) as [H1 H1']. destruct (IH2 Hr) as [H2 H2'].
    split; [|now apply Forall_app].
    rewrite forallb_app. apply andb_true_iff. now split.
  - now apply IH.
  - destruct (IH Hr) as [H1 H1'].
    split; [assumption|]. apply Forall_app. split; [assumption|].
    now constructor.
Qed.

Lemma Matches_min_length (r : regex) (prev : option char)
  (w : jsstring) (caps : list jsstring) :
  Matches r prev w caps -> (min_length r <= length w)%nat.
Proof.
  induction 1; cbn [min_length length]; rewrite ?length_app; lia.
Qed.

Lemma no_pair_weaken (b : bool) (l : jsstring) :
  no_pair b l = true -> no_pair false l = true.
Proof.
  destruct l as [|c l]; [reflexivity|]. cbn [no_pair].
  intros H. apply andb_true_iff in H as [_ H]. exact H.
Qed.

Lemma no_pair_suffix (w rest : jsstring) :
  forall b, no_pair b (w ++ rest) = true -> no_pair false rest = true.
Proof.
  induction w as [|c w IH]; intros b H; [now apply no_pair_weaken in H|].
  cbn [app no_pair] in H. apply andb_true_iff in H as [_ H].
  now apply IH in H.
Qed.

Lemma no_pair_star_free (x l : jsstring) :
  star_free x = true -> x <> [] ->
  forall b, no_pair b (x ++ l) = no_pair false l.
Proof.
  intros Hx Hne. induction x as [|c x IH]; [congruence|]. intros b.
  cbn [star_free forallb] in Hx. apply andb_true_iff in Hx as [Hc Hx].
  apply negb_true_iff in Hc. cbn [app no_pair]. rewrite Hc, andb_false_r.
  cbn [negb andb]. destruct x as [|d x]; [reflexivity|].
  apply IH; [exact Hx | discriminate].
Qed.

Lemma no_pair_double (a b : jsstring) :
  forall j, no_pair j (a ++ js "**" ++ b) = false.
Proof.
  induction a as [|c a IH]; intros j.
  - cbn. now rewrite andb_false_r.
  - cbn [app no_pair]. rewrite IH. apply andb_false_r.
Qed.

Lemma no_pair_includes (l : jsstring) :
  no_pair false l = true -> includes l (js "**") = false.
Proof.
  intros H. destruct (includes l (js "**")) eqn:E; [|reflexivity].
  apply includes_iff in E as (a & b & ->).
  now rewrite no_pair_double in H.
Qed.

(** A global replacement that keeps stars apart gives no two stars in a
    row where there were none. *)
Lemma replace_all_no_pair
  (m : option char -> jsstring -> option (nat * jsstring)) :
  keeps_stars_apart m ->
  forall (n : nat) (s : jsstring),
    (length s <= n)%nat ->
    forall (prev : option char) (b : bool),
      no_pair b s = true -> no_pair b (replace_all m 0 prev s) = true.
Proof.
  intros Hm. induction n as [|n IH]; intros s Hn prev b Hs.
  - destruct s; [|cbn in Hn; lia]. cbn [replace_all].
    destruct (m prev []) as [[k r]|] eqn:E; [|reflexivity].
    apply Hm in E as (w & rest & r' & Hw & _ & Hne & _).
    destruct w; [congruence | discriminate].
  - destruct (m prev s) as [[k r]|] eqn:E.
    + destruct (Hm _ _ _ _ E) as (w & rest & r' & -> & -> & Hne & Hr' & Hsf & Hr).
      rewrite (replace_all_match m prev w rest r Hne E).
      assert (Hrest : no_pair false
                        (replace_all m 0 (prev_after prev w) rest) = true).
      { apply IH; [|now apply no_pair_suffix in Hs].
        rewrite length_app in Hn. destruct w; [congruence | cbn in Hn; lia]. }
      destruct Hr as [->|(c & w' & -> & ->)].
      * now rewrite no_pair_star_free.
      * cbn [app no_pair] in Hs |- *.
        apply andb_true_iff in Hs as [Hc _]. rewrite Hc. cbn [andb].
        now rewrite no_pair_star_free.
    + destruct s as [|c s]; [cbn [replace_all]; now rewrite E|].
      rewrite replace_all_copy by exact E.
      cbn [no_pair] in Hs |- *. apply andb_true_iff in Hs as [Hc Hs].
      rewrite Hc. cbn [andb]. apply IH; [cbn in Hn; lia | exact Hs].
Qed.

Lemma bold_match (prev : option char) (s : jsstring) :
  replacement bold_pattern (fun _ => []) prev s
  = if startsWith s (js "**") then Some (2%nat, []) else None.
Proof.
  unfold replacement, matches, bold_pattern. rewrite run_lit.
  destruct (startsWith s (js "**")) eqn:E; [|reflexivity].
  apply startsWith_true in E. rewrite E at 1.
  rewrite length_app. do 2 f_equal.
  change (length (js "**")) with 2%nat. lia.
Qed.

(** After the removal of [**] no two stars are left in a row. *)
Lemma bold_removed :
  forall (n : nat) (s : jsstring),
    (length s <= n)%nat ->
    forall (prev : option char) (b : bool),
      (b = true ->
       match s with c :: _ => (c =? 42) = false | [] => True end) ->
      no_pair b (replace_all (replacement bold_pattern (fun _ => []))
                   0 prev s) = true.
Proof.
  set (m := replacement bold_pattern (fun _ => [])).
  induction n as [|n IH]; intros s Hn prev b Hb.
  - destruct s; [|cbn in Hn; lia]. reflexivity.
  - destruct s as [|c s]; [reflexivity|].
    pose proof (bold_match prev (c :: s)) as Hm. fold m in Hm.
    destruct (startsWith (c :: s) (js "**")) eqn:E.
    + apply startsWith_true in E.
      change (js "**") with [42; 42] in E. cbn [length] in E.
      destruct s as [|d t]; [discriminate|].
      cbn [skipn app] in E. inversion E; subst c d.
      assert (Hb' : b = false).
      { destruct b; [|reflexivity]. specialize (Hb eq_refl). discriminate. }
      subst b.
      pose proof (replace_all_match m prev [42; 42] t []
                    ltac:(discriminate) Hm) as Hr.
      cbn [app] in Hr. rewrite Hr.
      apply IH; [cbn in Hn; lia | discriminate].
    + rewrite replace_all_copy by exact Hm.
      cbn [no_pair]. apply andb_true_iff. split.
      * destruct b; [|reflexivity]. now rewrite (Hb eq_refl).
      * apply IH; [cbn in Hn; lia|]. intros Hc.
        destruct s as [|d t]; [exact I|].
        change (js "**") with [42; 42] in E. cbn [startsWith] in E.
        rewrite Hc in E. cbn [andb] in E.
        now rewrite andb_true_r in E.
Qed.

Lemma star_free_capture (caps : list jsstring) (i : nat) :
  Forall (fun cap => forallb (fun c => negb (c =? 42)) cap = true) caps ->
  star_free (capture caps i) = true.
Proof.
  intros H. unfold capture. generalize (i - 1)%nat. clear i.
  induction H as [|cap caps Hc _ IH]; intros [|i]; try reflexivity.
  - exact Hc.
  - apply IH.
Qed.

Lemma star_free_app (a b : jsstring) :
  star_free a = true -> star_free b = true -> star_free (a ++ b) = true.
Proof.
  unfold star_free. intros Ha Hb. rewrite forallb_app.
  apply andb_true_iff. now split.
Qed.

(** The replacement of a pattern without stars by a template that begins
    with a line feed keeps stars apart. *)
Lemma break_keeps_stars_apart (r : regex)
  (template : list jsstring -> jsstring) :
  rejects 42 r = true -> (1 <= min_length r)%nat ->
  (forall caps,
     Forall (fun cap => forallb (fun c => negb (c =? 42)) cap = true) caps ->
     template caps <> [] /\ star_free (template caps) = true) ->
  keeps_stars_apart (replacement r template).
Proof.
  intros Hrej Hmin Ht prev s n out H. unfold replacement in H.
  destruct (matches r prev s) as [[k caps]|] eqn:E; [|discriminate].
  inversion H; subst k out; clear H.
  apply matches_sound in E as (w & rest & -> & -> & Hm).
  destruct (Matches_rejects 42 _ _ _ _ Hm Hrej) as [_ Hcaps].
  apply Matches_min_length in Hm.
  destruct (Ht caps Hcaps) as [Hne Hsf].
  exists w, rest, (template caps).
  repeat split; try assumption; [|now left].
  destruct w; [cbn in Hm; lia | discriminate].
Qed.

Lemma heading_keeps_stars_apart :
  keeps_stars_apart
    (replacement heading_pattern
       (fun caps => capture caps 1 ++ [ch_lf; ch_lf] ++ capture caps 2
                      ++ js " " ++ capture caps 3)).
Proof.
  intros prev s n out H. unfold replacement in H.
  destruct (matches heading_pattern prev s) as [[k caps]|] eqn:E;
    [|discriminate].
  inversion H; subst k out; clear H.
  apply matches_sound in E as (w & rest & -> & -> & Hm).
  unfold heading_pattern in Hm.
  match type of Hm with
  | Matches (Seq _ ?R) _ _ _ => set (tail := R) in Hm;
      assert (Hrej : rejects 42 tail = true) by reflexivity
  end.
  inversion Hm as [| |a b p w1 w2 c1 c2 Hg Ht| | | | | | | | |]; subst.
  inversion Hg as [| | | | | | | | | | |a p w c Hc]; subst.
  inversion Hc as [|q x p Hx| | | | | | | | | |]; subst.
  destruct (Matches_rejects 42 _ _ _ _ Ht Hrej) as [_ Hcaps].
  exists ([x] ++ w2), rest,
    ([ch_lf; ch_lf] ++ capture c2 1 ++ js " " ++ capture c2 2).
  repeat split; [discriminate | discriminate | |].
  - apply (star_free_app [ch_lf; ch_lf]); [reflexivity|].
    apply star_free_app; [now apply star_free_capture|].
    apply (star_free_app (js " ")); [reflexivity|].
    now apply star_free_capture.
  - right. exists x, w2. split; [reflexivity|].
    destruct c2 as [|g2 [|g3 c2]]; reflexivity.
Qed.

(** X14. No bold marker is left: the post-processed transcription never
    holds two stars in a row, whatever the model returned. *)
Theorem postprocess_no_bold_marker (response_text : option jsstring) :
  includes (postprocess response_text) (js "**") = false.
Proof.
  unfold postprocess.
  match goal with
  | |- includes (trim ?t) _ = false =>
    destruct (trim_split t) as (a & b & Ht);
    apply (includes_app_false _ _ a b); rewrite <- Ht
  end.
  apply no_pair_includes.
  eapply replace_all_no_pair; [|reflexivity|].
  { apply break_keeps_stars_apart; [reflexivity | cbn; lia |].
    intros caps _. split; [discriminate | reflexivity]. }
  eapply replace_all_no_pair; [|reflexivity|].
  { apply break_keeps_stars_apart; [reflexivity | cbn; lia |].
    intros caps Hc. split; [discriminate|].
    apply (star_free_app [ch_lf]); [reflexivity|].
    apply star_free_app; now apply star_free_capture. }
  eapply replace_all_no_pair; [|reflexivity|].
  { apply break_keeps_stars_apart; [reflexivity | cbn; lia |].
    intros caps Hc. split; [discriminate|].
    apply (star_free_app [ch_lf]); [reflexivity|].
    apply star_free_app; now apply star_free_capture. }
  eapply replace_all_no_pair; [|reflexivity|].
  { apply heading_keeps_stars_apart. }
  eapply bold_removed; [reflexivity | discriminate].
Qed.

(** * The preview *)

Lemma Matches_group_free (r : regex) (prev : option char)
  (w : jsstring) (caps : list jsstring) :
  Matches r prev w caps -> group_free r = true -> caps = [].
Proof.
  induction 1 as [prev|p c prev Hp|a b prev w1 w2 c1 c2 _ IH1 _ IH2
                 |a b prev w c _ IH|a b prev w c _ IH|g a prev
                 |g a prev w1 w2 c1 c2 _ IH1 IHs IH2|a prev w c _ IH|a prev
                 | |p prev Hp|a prev w c _ IH];
    cbn [group_free]; intros Hg; try reflexivity.
  - apply andb_true_iff in Hg as [Ha Hb].
    now rewrite (IH1 Ha), (IH2 Hb).
  - apply andb_true_iff in Hg as [Ha _]. exact (IH Ha).
  - apply andb_true_iff in Hg as [_ Hb]. exact (IH Hb).
  - now rewrite (IH1 Hg), (IH2 Hg).
  - exact (IH Hg).
  - discriminate.
Qed.

Lemma group_capture (a : regex) (prev : option char) (s : jsstring)
  (n : nat) (caps : list jsstring) :
  group_free a = true ->
  matches (Group a) prev s = Some (n, caps) ->
  capture caps 1 = firstn n s.
Proof.
  intros Hg H. apply matches_sound in H as (w & rest & -> & -> & HM).
  inversion HM as [| | | | | | | | | | |a' prev' w' c H1]; subst.
  rewrite (Matches_group_free _ _ _ _ H1 Hg). cbn [app capture Nat.sub nth].
  rewrite firstn_app, Nat.sub_diag, firstn_all. cbn [firstn].
  now rewrite app_nil_r.
Qed.

Lemma split_pattern_spells : spells_match split_pattern.
Proof.
  intros prev s n caps H. unfold split_pattern in H.
  destruct (matches heading_part_pattern prev s) as [[n1 c1]|] eqn:E1.
  - inversion H; subst. cbn [map part_text List.concat].
    rewrite !app_nil_r.
    eapply group_capture; [|exact E1]. reflexivity.
  - destruct (matches sub_item_part_pattern prev s) as [[n2 c2]|] eqn:E2;
      [|discriminate].
    inversion H; subst. cbn [map part_text List.concat app].
    rewrite !app_nil_r.
    eapply group_capture; [|exact E2]. reflexivity.
Qed.

Lemma split_go_text
  (m : option char -> jsstring -> option (nat * list (option jsstring)))
  (s : jsstring) :
  spells_match m ->
  forall (skip : nat) (cur : jsstring) (prev : option char),
    skip = O \/ cur = [] ->
    List.concat (map part_text (split_go m skip cur prev s))
    = cur ++ skipn skip s.
Proof.
  intros Hm. induction s as [|c s IH]; intros skip cur prev Hs;
    cbn [split_go].
  - cbn [map part_text List.concat]. now rewrite skipn_nil.
  - destruct skip as [|k].
    + cbn [skipn].
      destruct (m prev (c :: s)) as [[[|k] caps]|] eqn:E.
      * rewrite IH by (now left). cbn [skipn]. now rewrite <- app_assoc.
      * cbn [map part_text List.concat]. rewrite map_app, concat_app.
        rewrite (Hm _ _ _ _ E), IH by (now right).
        cbn [app firstn]. f_equal. cbn [app]. f_equal.
        apply firstn_skipn.
      * rewrite IH by (now left). cbn [skipn]. now rewrite <- app_assoc.
    + destruct Hs as [Hs| ->]; [discriminate|].
      rewrite IH by (now right). reflexivity.
Qed.

Lemma split_regex_text
  (m : option char -> jsstring -> option (nat * list (option jsstring)))
  (s : jsstring) :
  spells_match m -> List.concat (map part_text (split_regex m s)) = s.
Proof.
  intros Hm. destruct s as [|c s]; cbn [split_regex].
  - now destruct (m None []).
  - now rewrite (split_go_text m (c :: s) Hm 0 [] None) by (now left).
Qed.

Lemma highlighted_span_text (part : option jsstring) :
  span_text (highlighted_span part) = part_text part.
Proof.
  destruct part as [[|c p]|]; try reflexivity.
  unfold highlighted_span.
  destruct (test_at_start heading_test_pattern (c :: p)); [reflexivity|].
  now destruct (test_at_start sub_item_test_pattern (c :: p)).
Qed.

(** X15. The highlighted preview of a text shows the text: the spans of
    [HighlightedText], put one after the other, spell the content, every
    character once and in its place, whatever is highlighted. *)
Theorem HighlightedText_lossless (content : jsstring) :
  List.concat (map span_text (HighlightedText content)) = content.
Proof.
  unfold HighlightedText. rewrite map_map.
  rewrite (map_ext _ _ highlighted_span_text).
  apply split_regex_text, split_pattern_spells.
Qed.

(** X16. The rich-text preview of a text without math delimiters is the
    text itself, whatever the renderer does. *)
Theorem preview_without_math
  (renderHtml : jsstring -> option bool -> completion jsstring)
  (text : jsstring) :
  no_delimiters text ->
  exists segs,
    parseContent text = Some segs /\ htmlContent renderHtml segs = text.
Proof.
  intros Hn. exists (literal text). split.
  - apply parseContent_no_match, no_delimiters_exec, Hn.
  - destruct text as [|c text]; [reflexivity|].
    cbn [literal]. unfold htmlContent, preview_segment.
    cbn [map List.concat type]. apply app_nil_r.
Qed.

Lemma preview_without_math_witness :
  exists segs,
    parseContent (js "<b>Hello</b>") = Some segs /\
    htmlContent (fun _ _ => Throw) segs = js "<b>Hello</b>".
Proof.
  apply preview_without_math.
  repeat split; vm_compute; first [reflexivity | repeat constructor].
Defined.

(** * Reading files *)

Lemma split_char_head (sep : char) (s : jsstring) :
  forall cur : jsstring,
    exists tl,
      split_char sep cur s
      = (cur ++ take_while (fun c => negb (c =? sep)) s) :: tl.
Proof.
  induction s as [|c s IH]; intros cur; cbn [split_char take_while].
  - exists []. now rewrite app_nil_r.
  - destruct (c =? sep); cbn [negb].
    + eexists. now rewrite app_nil_r.
    + destruct (IH (cur ++ [c])) as [tl ->]. exists tl.
      now rewrite <- app_assoc.
Qed.

Lemma split_char_app_separator (sep : char) (rest : jsstring) :
  forall head cur : jsstring,
    forallb (fun c => negb (c =? sep)) head = true ->
    split_char sep cur (head ++ sep :: rest)
    = (cur ++ head) :: split_char sep [] rest.
Proof.
  induction head as [|c head IH]; intros cur H; cbn [app split_char].
  - now rewrite N.eqb_refl, app_nil_r.
  - cbn [forallb] in H. apply andb_true_iff in H as [Hc H].
    apply negb_true_iff in Hc. rewrite Hc, IH by exact H.
    now rewrite <- app_assoc.
Qed.

(** X17. The data read from a data URL is what stands between its first
    comma and the next one, or the end: the base64 text of the file, which
    holds no comma, is handed to the model whole. *)
Theorem data_url_payload (header payload : jsstring) :
  forallb (fun c => negb (c =? 44)) header = true ->
  base64_of_data_url (header ++ [44] ++ payload)
  = Some (take_while (fun c => negb (c =? 44)) payload).
Proof.
  intros H. unfold base64_of_data_url. cbn [app].
  rewrite split_char_app_separator by exact H.
  destruct (split_char_head 44 payload []) as [tl ->]. reflexivity.
Qed.

Lemma data_url_payload_witness :
  base64_of_data_url (js "data:image/png;base64" ++ [44] ++ js "iVBORw0KGgo=")
  = Some (take_while (fun c => negb (c =? 44)) (js "iVBORw0KGgo=")).
Proof.
  apply data_url_payload. reflexivity.
Defined.

Lemma render_pages_app (pdf : PDFDocument) (count : nat) :
  forall (i : nat) (images : list InlineImage),
    render_pages pdf i count images
    = images ++ render_pages pdf i count [].
Proof.
  induction count as [|count IH]; intros i images; cbn [render_pages].
  - now rewrite app_nil_r.
  - destruct (page_data_url pdf i) as [url|].
    + rewrite IH, (IH _ ([] ++ _)). cbn [app]. now rewrite <- app_assoc.
    + apply IH.
Qed.

Lemma render_pages_length (pdf : PDFDocument) (count : nat) :
  forall i : nat, (length (render_pages pdf i count []) <= count)%nat.
Proof.
  induction count as [|count IH]; intros i; cbn [render_pages];
    [apply Nat.le_refl|].
  destruct (page_data_url pdf i) as [url|].
  - rewrite render_pages_app, length_app. cbn [app length].
    specialize (IH (S i)). lia.
  - specialize (IH (S i)). lia.
Qed.

Lemma render_pages_ext (pdf1 pdf2 : PDFDocument) (count : nat) :
  forall (i : nat) (images : list InlineImage),
    (forall j : nat, (i <= j < i + count)%nat ->
       page_data_url pdf1 j = page_data_url pdf2 j) ->
    render_pages pdf1 i count images = render_pages pdf2 i count images.
Proof.
  induction count as [|count IH]; intros i images H; cbn [render_pages];
    [reflexivity|].
  rewrite (H i) by lia. apply IH. intros j Hj. apply H. lia.
Qed.

(** X18. Only the first [maxPages] pages of a PDF reach the model: two
    documents of at least that many pages that agree on them give the same
    images, at most [maxPages] of them, whatever their later pages hold. *)
Theorem convertPdfToImages_page_limit (pdf1 pdf2 : PDFDocument)
  (maxPages : nat) :
  (maxPages <= numPages pdf1)%nat -> (maxPages <= numPages pdf2)%nat ->
  (forall i : nat, (1 <= i <= maxPages)%nat ->
     page_data_url pdf1 i = page_data_url pdf2 i) ->
  convertPdfToImages pdf1 maxPages = convertPdfToImages pdf2 maxPages /\
  (length (convertPdfToImages pdf1 maxPages) <= maxPages)%nat.
Proof.
  intros H1 H2 H. unfold convertPdfToImages.
  rewrite !Nat.min_r by assumption. split.
  - apply render_pages_ext. intros j Hj. apply H. lia.
  - apply render_pages_length.
Qed.

Lemma convertPdfToImages_page_limit_witness :
  let first_only (later : option jsstring) (i : nat) :=
    if (i <=? default_maxPages)%nat then Some (js "data:image/jpeg;base64,AA")
    else later in
  let pdf1 := {| numPages := 7; page_data_url := first_only None |} in
  let pdf2 :=
    {| numPages := 9;
       page_data_url := first_only (Some (js "data:image/jpeg;base64,BB")) |} in
  convertPdfToImages pdf1 default_maxPages
  = convertPdfToImages pdf2 default_maxPages /\
  (length (convertPdfToImages pdf1 default_maxPages) <= default_maxPages)%nat.
Proof.
  intros first_only pdf1 pdf2.
  apply (convertPdfToImages_page_limit pdf1 pdf2 default_maxPages).
  - unfold default_maxPages. cbn. lia.
  - unfold default_maxPages. cbn. lia.
  - intros i Hi. cbn [page_data_url pdf1 pdf2]. unfold first_only.
    destruct (Nat.leb_spec i default_maxPages); [reflexivity | lia].
Defined.

(** * The chat *)

Lemma id_eqb_eq (a b : Chat.MessageId) :
  Chat.id_eqb a b = true <-> a = b.
Proof.
  destruct a as [|x], b as [|y]; cbn [Chat.id_eqb];
    try (split; [reflexivity | reflexivity]);
    try (split; discriminate).
  rewrite N.eqb_eq. split; [now intros -> | now inversion 1].
Qed.

Lemma set_text_fresh (botMsgId : Chat.MessageId) (fullText : jsstring)
  (msgs : list Chat.ChatMessage) :
  Forall (fun m => Chat.id m <> botMsgId) msgs ->
  Chat.set_text botMsgId fullText msgs = msgs.
Proof.
  induction 1 as [|m msgs Hm _ IH]; [reflexivity|].
  unfold Chat.set_text in *. cbn [map]. rewrite IH.
  destruct (Chat.id_eqb (Chat.id m) botMsgId) eqn:E; [|reflexivity].
  now apply id_eqb_eq in E.
Qed.

Lemma for_await_reply (botMsgId : Chat.MessageId) (r : Chat.MessageRole)
  (e : option bool) (before after : list Chat.ChatMessage) :
  Forall (fun m => Chat.id m <> botMsgId) before ->
  Forall (fun m => Chat.id m <> botMsgId) after ->
  forall (stream : list jsstring) (fullText : jsstring),
    Chat.for_await botMsgId fullText stream
      (before ++ {| Chat.id := botMsgId; Chat.role := r;
                    Chat.text := fullText; Chat.isError := e |} :: after)
    = before ++ {| Chat.id := botMsgId; Chat.role := r;
                   Chat.text := fullText ++ List.concat stream;
                   Chat.isError := e |} :: after.
Proof.
  intros Hb Ha. induction stream as [|chunk stream IH]; intros fullText;
    cbn [Chat.for_await List.concat].
  - now rewrite app_nil_r.
  - pose proof (set_text_fresh botMsgId (fullText ++ chunk) _ Hb) as Eb.
    pose proof (set_text_fresh botMsgId (fullText ++ chunk) _ Ha) as Ea.
    unfold Chat.set_text in *. rewrite map_app. cbn [map Chat.id].
    rewrite Eb, Ea.
    replace (Chat.id_eqb botMsgId botMsgId) with true
      by (symmetry; now apply id_eqb_eq).
    cbn [Chat.role Chat.isError]. rewrite IH. now rewrite <- app_assoc.
Qed.

Lemma streamGenerator_concat (chunks : list (option jsstring)) :
  List.concat (Chat.streamGenerator chunks)
  = List.concat (map part_text chunks).
Proof.
  induction chunks as [|[[|c t]|] chunks IH];
    cbn [Chat.streamGenerator map part_text List.concat app];
    now rewrite ?IH.
Qed.

(** X19. A reply of the chat is streamed into one message: when the
    question is not blank, no request is running, the session streams
    [chunks] and no earlier message has the identifier of the reply, the
    messages after [handleSend] are the earlier ones unchanged, the
    question, the reply whose text is every chunk in order, and the error
    notice when the stream failed. *)
Theorem handleSend_reply (now : Chat.Clock) (chat : Chat.Session)
  (st : Chat.State) (chunks : list (option jsstring)) (completes : bool) :
  trim (Chat.input st) <> [] ->
  Chat.isLoading st = false ->
  chat (Chat.input st) = Chat.Stream chunks completes ->
  Chat.at_send now <= Chat.at_reply now ->
  Forall (fun m => Chat.id m <> Chat.time_id (Chat.at_reply now + 1))
    (Chat.messages st) ->
  Chat.messages (Chat.handleSend now (Some chat) st)
  = Chat.messages st
      ++ [question (Chat.at_send now) (Chat.input st);
          reply (Chat.at_reply now) chunks]
      ++ (if completes then []
          else [Chat.error_message (Chat.at_error now)]).
Proof.
  intros Hi Hl Hc Ht Hf. unfold Chat.handleSend.
  destruct (trim (Chat.input st)) as [|c t]; [congruence|].
  rewrite Hl. cbn [Chat.messages Chat.text].
  unfold Chat.sendMessageToGemini. rewrite Hc.
  assert (Hfresh :
    Forall (fun m => Chat.id m <> Chat.time_id (Chat.at_reply now + 1))
      (Chat.messages st ++ [question (Chat.at_send now) (Chat.input st)])).
  { apply Forall_app. split; [exact Hf|]. constructor; [|constructor].
    cbn [question Chat.id]. intros E. inversion E. lia. }
  pose proof (for_await_reply (Chat.time_id (Chat.at_reply now + 1))
                Chat.Model None _ [] Hfresh (Forall_nil _)
                (Chat.streamGenerator chunks) []) as E.
  cbn [app] in E. fold (question (Chat.at_send now) (Chat.input st)).
  rewrite E, streamGenerator_concat. fold (reply (Chat.at_reply now) chunks).
  rewrite <- !app_assoc. cbn [app].
  destruct completes; [now rewrite ?app_nil_r | reflexivity].
Qed.

Lemma handleSend_reply_witness :
  let now := {| Chat.at_send := 1000; Chat.at_reply := 1200;
                Chat.at_error := 1300 |} in
  let st :=
    {| Chat.messages :=
         [{| Chat.id := Chat.init_id; Chat.role := Chat.Model;
             Chat.text := js "Hello!"; Chat.isError := None |}];
       Chat.input := js "What is \frac?"; Chat.isLoading := false |} in
  let chunks := [Some (js "A frac"); None; Some (js "tion.")] in
  Chat.messages
    (Chat.handleSend now (Some (fun _ => Chat.Stream chunks false)) st)
  = Chat.messages st
      ++ [question 1000 (Chat.input st); reply 1200 chunks]
      ++ [Chat.error_message 1300].
Proof.
  intros now st chunks.
  apply (handleSend_reply now (fun _ => Chat.Stream chunks false) st
           chunks false).
  - vm_compute. discriminate.
  - reflexivity.
  - reflexivity.
  - vm_compute. discriminate.
  - repeat constructor. discriminate.
Defined.
